(** * plot_range: truck range against fuel mass and volume

    A shallow embedding of [plot_range.py]: the lookup [get_mpgde], the
    mileage model [calculate_miles_per_fuel] and the range-table builder
    [create_range_vs_fuel_ratio_dfs].

    The program computes on IEEE 754 binary64 numbers (numpy's float64).
    Its functions are written once over an interface of the arithmetic
    they use and instantiated twice: at Rocq's primitive binary64 floats,
    which is what the program runs on, and at the rationals, the exact
    arithmetic its formulas are written in.

    What rounding leaves of the exact identities is proved of the
    binary64 instance from the Standard Library's specification of the
    primitive floats; a computed number is compared with the exact one
    through [fvalue], the rational a binary64 number stands for. *)

From Stdlib Require Import ZArith QArith Qfield Qpower Qabs Lqa List String.
From Stdlib Require Import PrimFloat Uint63.
From Stdlib Require Floats.
From stdpp Require Import gmap strings list.

Close Scope Q_scope.
Local Open Scope Z_scope.

(** ** Numbers *)

(** The operations the program applies to its numbers: [*], [/], the
    conversion of an [int] operand and decimal literals. *)
Class Number (num : Type) := {
  mul : num -> num -> num;
  div : num -> num -> num;
  of_int : Z -> num;
  (** the literal whose exact value is the fraction [q] *)
  of_decimal : Q -> num
}.

Declare Scope num_scope.
Delimit Scope num_scope with num.
Infix "*" := mul : num_scope.
Infix "/" := div : num_scope.

(** binary64: numpy's float64 and Python's float.  An [int] below 2^53 in
    magnitude converts exactly; the quotient of two exactly represented
    integers is the binary64 number nearest to the fraction, which is how
    a decimal literal is read. *)
Definition float_of_int (z : Z) : float :=
  if z <? 0 then PrimFloat.opp (PrimFloat.of_uint63 (Uint63.of_Z (- z)))
  else PrimFloat.of_uint63 (Uint63.of_Z z).

#[export] Instance binary64 : Number float := {
  mul := PrimFloat.mul;
  div := PrimFloat.div;
  of_int := float_of_int;
  of_decimal q := PrimFloat.div (float_of_int (Qnum q)) (float_of_int (Zpos (Qden q)))
}.

(** Exact arithmetic on the rationals. *)
#[export] Instance exact : Number Q := {
  mul := Qmult;
  div := Qdiv;
  of_int := inject_Z;
  of_decimal q := q
}.

(** ** Exceptions, the console and the tables in memory *)

Inductive exn := KeyError (key : string).

Inductive result (A : Type) :=
| Ok (a : A)
| Raise (e : exn).
Arguments Ok {A} a.
Arguments Raise {A} e.

Section Program.

Context {num : Type} `{Number num}.

(** A pandas DataFrame: row labels, column labels and the cells by
    position, every cell a number.  The lookups below are those of a
    frame whose row labels are distinct and whose column labels are
    distinct, as they are in the data files; a statement that depends on
    it says so with [NoDup]. *)
Record DataFrame := {
  index : list string;
  columns : list string;
  values : nat -> nat -> num
}.

(** [Index.get_loc]: the position of a label, [None] where pandas raises
    [KeyError]. *)
Fixpoint get_loc (labels : list string) (key : string) : option nat :=
  match labels with
  | [] => None
  | l :: rest =>
      if String.eqb l key then Some O
      else option_map S (get_loc rest key)
  end.

(** [df.loc[row, col]] of two labels: pandas finds the column first
    and the row in it second, and raises the [KeyError] of the first
    label it misses. *)
Definition df_loc (df : DataFrame) (row col : string) : result num :=
  match get_loc (columns df) col with
  | None => Raise (KeyError col)
  | Some j =>
      match get_loc (index df) row with
      | None => Raise (KeyError row)
      | Some i => Ok (values df i j)
      end
  end.

(** The three frames [main] reads and passes by reference. *)
Inductive frame := TruckInfo | TruckFuelInfo | FuelInfo.

Record World := {
  heap : frame -> DataFrame;
  stdout : list string
}.

(** Computations: they read and may write the world, and return or raise. *)
Definition M (A : Type) : Type := World -> result A * World.

Definition ret {A} (a : A) : M A := fun w => (Ok a, w).

Definition bind {A B} (m : M A) (k : A -> M B) : M B :=
  fun w =>
    match m w with
    | (Ok a, w') => k a w'
    | (Raise e, w') => (Raise e, w')
    end.

(** [try: body except KeyError: handler] *)
Definition try_except_KeyError {A} (body : M A) (handler : M A) : M A :=
  fun w =>
    match body w with
    | (Ok a, w') => (Ok a, w')
    | (Raise (KeyError _), w') => handler w'
    end.

Definition print (line : string) : M unit :=
  fun w => (Ok tt, {| heap := heap w; stdout := stdout w ++ [line] |}).

Definition lift {A} (r : result A) : M A := fun w => (r, w).

Definition loc (df : frame) (row col : string) : M num :=
  fun w => lift (df_loc (heap w df) row col) w.

Definition get_index (df : frame) : M (list string) :=
  fun w => (Ok (index (heap w df)), w).

End Program.

Arguments DataFrame num : clear implicits.
Arguments World num : clear implicits.
Arguments M num A : clear implicits.

Notation "'do' x <- m ; k" := (bind m (fun x => k))
  (at level 10, x name, m at level 100, k at level 200).

(** ** The program *)

Section Source.

Context {num : Type} `{Number num}.

(** Gallons per cubic meter *)
Definition GALLONS_PER_M3 : num := of_decimal (264172 # 1000)%Q.

Definition not_found_message (fuel : string) : string :=
  String.append "Fuel '"
    (String.append fuel "' not found in the truck fuel info dataframe.").

(** [get_mpgde]: the cell ['MPGDE'] of the row [fuel]; a [KeyError] of the
    lookup is reported on the console and answered with [None].
    [float(...)] of a float64 cell is the same number. *)
Definition get_mpgde (fuel : string) (truck_fuel_info_df : frame)
  : M num (option num) :=
  try_except_KeyError
    (do fuel_mpgde <- loc truck_fuel_info_df fuel "MPGDE";
     ret (Some fuel_mpgde))
    (do _ <- print (not_found_message fuel);
     ret None).

Definition calculate_miles_per_fuel
    (mpdge_fuel energy_density_fuel mass_density_fuel
     energy_density_diesel mass_density_diesel : num) : num * num :=
  let miles_per_kg_diesel :=
    (mpdge_fuel / (mass_density_diesel / GALLONS_PER_M3))%num in
  let miles_per_kg_fuel :=
    (miles_per_kg_diesel * energy_density_fuel / energy_density_diesel)%num in
  let miles_per_m3_fuel := (miles_per_kg_fuel * mass_density_fuel)%num in
  (miles_per_kg_fuel, miles_per_m3_fuel).

(** One row of a fuel's table, under the columns 'Truck Range (miles)',
    'Fuel Mass (kg)', 'Fuel Mass (% of GVW)', 'Fuel Volume (m^3)' and
    'Fuel Volume (% of Dry Van Volume)'. *)
Record Row := {
  truck_range : Z;
  fuel_mass : num;
  fuel_mass_percentage : num;
  fuel_volume : num;
  fuel_volume_percentage : num
}.

(** [range(start, stop, step)] for a positive [step] *)
Definition py_range (start stop step : Z) : list Z :=
  map (fun i => start + Z.of_nat i * step)
      (seq 0 (Z.to_nat ((stop - start + step - 1) / step))).

(** The body of the loop over [range_values]. *)
Definition range_row
    (miles_per_kg_fuel miles_per_m3_fuel max_gvw dry_van_volume : num)
    (truck_range : Z) : Row :=
  let fuel_mass := (of_int truck_range / miles_per_kg_fuel)%num in
  let fuel_volume := (of_int truck_range / miles_per_m3_fuel)%num in
  let fuel_mass_percentage := ((fuel_mass / max_gvw) * of_int 100)%num in
  let fuel_volume_percentage :=
    ((fuel_volume / dry_van_volume) * of_int 100)%num in
  {| truck_range := truck_range;
     fuel_mass := fuel_mass;
     fuel_mass_percentage := fuel_mass_percentage;
     fuel_volume := fuel_volume;
     fuel_volume_percentage := fuel_volume_percentage |}.

(** [rows = []; for truck_range in range_values: ...; rows.append(...)] *)
Definition range_rows
    (miles_per_kg_fuel miles_per_m3_fuel max_gvw dry_van_volume : num)
    (range_values : list Z) : list Row :=
  fold_left
    (fun rows truck_range =>
       rows ++ [range_row miles_per_kg_fuel miles_per_m3_fuel
                          max_gvw dry_van_volume truck_range])
    range_values [].

(** [for x in xs: body], the loop's variables threaded as [acc] *)
Fixpoint for_each {A S : Type} (xs : list A) (body : S -> A -> M num S)
    (acc : S) : M num S :=
  match xs with
  | [] => ret acc
  | x :: rest => do acc' <- body acc x; for_each rest body acc'
  end.

(** The body of the loop over [fuel_info_df.index]; [continue] leaves the
    dictionary as it is. *)
Definition fuel_body (truck_fuel_info_df fuel_info_df : frame)
    (max_gvw dry_van_volume : num) (range_values : list Z)
    (range_vs_fuel_ratio_dfs : gmap string (list Row)) (fuel : string)
  : M num (gmap string (list Row)) :=
  do mpgde_fuel <- get_mpgde fuel truck_fuel_info_df;
  match mpgde_fuel with
  | None => ret range_vs_fuel_ratio_dfs
  | Some mpgde_fuel =>
      do energy_density_fuel <-
        loc fuel_info_df fuel "Energy Density (MJ / kg)";
      do mass_density_fuel <-
        loc fuel_info_df fuel "Mass Density (kg / m^3)";
      do energy_density_diesel <-
        loc fuel_info_df "Diesel" "Energy Density (MJ / kg)";
      do mass_density_diesel <-
        loc fuel_info_df "Diesel" "Mass Density (kg / m^3)";
      let '(miles_per_kg_fuel, miles_per_m3_fuel) :=
        calculate_miles_per_fuel mpgde_fuel energy_density_fuel
          mass_density_fuel energy_density_diesel mass_density_diesel in
      let fuel_df :=
        range_rows miles_per_kg_fuel miles_per_m3_fuel
                   max_gvw dry_van_volume range_values in
      ret (<[fuel := fuel_df]> range_vs_fuel_ratio_dfs)
  end.

Definition create_range_vs_fuel_ratio_dfs
    (truck_info_df truck_fuel_info_df fuel_info_df : frame)
  : M num (gmap string (list Row)) :=
  let range_vs_fuel_ratio_dfs : gmap string (list Row) := ∅ in
  do max_gvw <- loc truck_info_df "Max Gross Vehicle Weight (kg)" "Value";
  do dry_van_volume <- loc truck_info_df "Dry Van Volume (m^3)" "Value";
  let range_values := py_range 100 1001 100 in
  do fuels <- get_index fuel_info_df;
  for_each fuels
    (fuel_body truck_fuel_info_df fuel_info_df max_gvw dry_van_volume
               range_values)
    range_vs_fuel_ratio_dfs.

(** The call in [main]. *)
Definition main_tables : M num (gmap string (list Row)) :=
  create_range_vs_fuel_ratio_dfs TruckInfo TruckFuelInfo FuelInfo.

(** The divisors of the four divisions of one pass of the loop over
    [range_values]. *)
Definition row_divisors
    (miles_per_kg_fuel miles_per_m3_fuel max_gvw dry_van_volume : num)
  : list num :=
  [miles_per_kg_fuel; miles_per_m3_fuel; max_gvw; dry_van_volume].

(** *** The run as a function of the frames

    The definitions below restate what the loop does with one fuel and
    with all of them as plain functions of the frames; the lemmas
    [fuel_body_run], [for_each_fuel_run] and [create_run] prove that the
    program computes them. *)

(** The call of [calculate_miles_per_fuel] in the loop body, with the
    five lookups that give its arguments. *)
Definition miles_per_fuel_of (tff fif : DataFrame num) (fuel : string)
  : result (num * num) :=
  match df_loc tff fuel "MPGDE" with
  | Raise e => Raise e
  | Ok mpgde_fuel =>
  match df_loc fif fuel "Energy Density (MJ / kg)" with
  | Raise e => Raise e
  | Ok energy_density_fuel =>
  match df_loc fif fuel "Mass Density (kg / m^3)" with
  | Raise e => Raise e
  | Ok mass_density_fuel =>
  match df_loc fif "Diesel" "Energy Density (MJ / kg)" with
  | Raise e => Raise e
  | Ok energy_density_diesel =>
  match df_loc fif "Diesel" "Mass Density (kg / m^3)" with
  | Raise e => Raise e
  | Ok mass_density_diesel =>
      Ok (calculate_miles_per_fuel mpgde_fuel energy_density_fuel
            mass_density_fuel energy_density_diesel mass_density_diesel)
  end end end end end.

(** Whether the efficiency lookup of [get_mpgde] succeeds for [fuel]. *)
Definition is_rated (tff : DataFrame num) (fuel : string) : bool :=
  match df_loc tff fuel "MPGDE" with
  | Ok _ => true
  | Raise _ => false
  end.

(** What one pass of the loop body makes of [fuel]: no table ([None])
    when the efficiency lookup raises, the table when every lookup
    succeeds, the first [KeyError] of the property lookups otherwise. *)
Definition fuel_table (tff fif : DataFrame num) (max_gvw dry_van_volume : num)
    (range_values : list Z) (fuel : string)
  : result (option (list Row)) :=
  match df_loc tff fuel "MPGDE" with
  | Raise _ => Ok None
  | Ok _ =>
      match miles_per_fuel_of tff fif fuel with
      | Raise e => Raise e
      | Ok (miles_per_kg_fuel, miles_per_m3_fuel) =>
          Ok (Some (range_rows miles_per_kg_fuel miles_per_m3_fuel
                               max_gvw dry_van_volume range_values))
      end
  end.

(** The world after [get_mpgde] has reported a fuel it did not find. *)
Definition reported (w : World num) (fuel : string) : World num :=
  {| heap := heap w; stdout := stdout w ++ [not_found_message fuel] |}.

(** The dictionary after the loop over [fuels], or the exception that
    ends it. *)
Fixpoint tables_from (entry : string -> result (option (list Row)))
    (fuels : list string) (acc : gmap string (list Row))
  : result (gmap string (list Row)) :=
  match fuels with
  | [] => Ok acc
  | fuel :: rest =>
      match entry fuel with
      | Ok None => tables_from entry rest acc
      | Ok (Some t) => tables_from entry rest (<[fuel := t]> acc)
      | Raise e => Raise e
      end
  end.

(** The result of [create_range_vs_fuel_ratio_dfs] on three frames. *)
Definition tables_of (ti tff fif : DataFrame num)
  : result (gmap string (list Row)) :=
  match df_loc ti "Max Gross Vehicle Weight (kg)" "Value" with
  | Raise e => Raise e
  | Ok max_gvw =>
  match df_loc ti "Dry Van Volume (m^3)" "Value" with
  | Raise e => Raise e
  | Ok dry_van_volume =>
      tables_from
        (fuel_table tff fif max_gvw dry_van_volume (py_range 100 1001 100))
        (index fif) ∅
  end end.

(** A frame from its labels and its rows of cells; a cell outside the
    rows reads [of_int 0]. *)
Definition frame_of (idx cols : list string) (cells : list (list num))
  : DataFrame num :=
  {| index := idx;
     columns := cols;
     values := fun i j => nth j (nth i cells []) (of_int 0) |}.

End Source.

Arguments Row num : clear implicits.

(** ** Example data *)

Section Examples.

Context {num : Type} `{Number num}.

Definition world_of (ti tff fi : DataFrame num) : World num :=
  {| heap := fun f =>
       match f with
       | TruckInfo => ti
       | TruckFuelInfo => tff
       | FuelInfo => fi
       end;
     stdout := [] |}.

Definition truck_info (max_gvw dry_van_volume : num) : DataFrame num :=
  frame_of ["Max Gross Vehicle Weight (kg)"; "Dry Van Volume (m^3)"]
           ["Value"]
           [[max_gvw]; [dry_van_volume]].

Definition fuel_columns : list string :=
  ["Energy Density (MJ / kg)"; "Mass Density (kg / m^3)"].

(** The spec's example: a 20000 kg truck with a 100 m^3 van, diesel at
    10 MPGDE, 45 MJ/kg and 850 kg/m^3; and hydrogen, which has no
    efficiency rating. *)
Definition example_world : World num :=
  world_of
    (truck_info (of_int 20000) (of_int 100))
    (frame_of ["Diesel"] ["MPGDE"] [[of_int 10]])
    (frame_of ["Diesel"; "Hydrogen"] fuel_columns
       [[of_int 45; of_int 850]; [of_int 120; of_int 71]]).

(** Hydrogen alone in the fuel-property table, so the 'Diesel' row is
    missing; the efficiency table rates [rated]. *)
Definition world_without_diesel_row (rated : string) : World num :=
  world_of
    (truck_info (of_int 20000) (of_int 100))
    (frame_of [rated] ["MPGDE"] [[of_int 10]])
    (frame_of ["Hydrogen"] fuel_columns [[of_int 120; of_int 71]]).

(** The efficiency table without its 'MPGDE' column. *)
Definition world_without_mpgde_column : World num :=
  world_of
    (truck_info (of_int 20000) (of_int 100))
    (frame_of ["Diesel"] ["MPG"] [[of_int 10]])
    (frame_of ["Diesel"] fuel_columns [[of_int 45; of_int 850]]).

(** The truck table without its 'Dry Van Volume (m^3)' row. *)
Definition world_without_van_row : World num :=
  world_of
    (frame_of ["Max Gross Vehicle Weight (kg)"] ["Value"] [[of_int 20000]])
    (frame_of ["Diesel"] ["MPGDE"] [[of_int 10]])
    (frame_of ["Diesel"] fuel_columns [[of_int 45; of_int 850]]).

End Examples.

(** Finite and positive, for a binary64 number. *)
Definition finite_positive (x : float) : bool :=
  PrimFloat.ltb 0 x && PrimFloat.ltb x infinity.

(** The smallest positive binary64 number, 2^-1074 (about 4.9e-324). *)
Definition tiny : float := 0x1p-1074%float.

(** Hydrogen entered with the energy density [tiny]; every other number
    is an ordinary one. *)
Definition faint_world : World float :=
  world_of
    (truck_info 20000%float 100%float)
    (frame_of ["Diesel"; "Hydrogen"] ["MPGDE"] [[10%float]; [10%float]])
    (frame_of ["Diesel"; "Hydrogen"] fuel_columns
       [[45%float; 850%float]; [tiny; 71%float]]).

(** A truck of 2^1023 kg (about 9.0e307) whose diesel rating is 2^70
    MPGDE (about 1.2e21): finite positive binary64 numbers. *)
Definition heavy_world : World float :=
  world_of
    (truck_info 0x1p+1023%float 100%float)
    (frame_of ["Diesel"] ["MPGDE"] [[0x1p+70%float]])
    (frame_of ["Diesel"] fuel_columns [[45%float; 850%float]]).

(** ** The dictionary in insertion order, the charts and [main] *)

Section Charts.

Context {num : Type} `{Number num}.

(** [d[key] = value] on a [dict] given by its items in insertion order:
    the value is replaced where the key stands, a new key goes last. *)
Fixpoint setitem {V : Type} (d : list (string * V)) (key : string)
    (value : V) : list (string * V) :=
  match d with
  | [] => [(key, value)]
  | (k, v) :: rest =>
      if String.eqb k key then (k, value) :: rest
      else (k, v) :: setitem rest key value
  end.

(** The loop body and the function once more, the dictionary kept as its
    items in insertion order, which is the order [items()] yields them
    in; [create_ordered_run] relates the two. *)
Definition fuel_body_ordered (truck_fuel_info_df fuel_info_df : frame)
    (max_gvw dry_van_volume : num) (range_values : list Z)
    (range_vs_fuel_ratio_dfs : list (string * list (Row num)))
    (fuel : string) : M num (list (string * list (Row num))) :=
  do mpgde_fuel <- get_mpgde fuel truck_fuel_info_df;
  match mpgde_fuel with
  | None => ret range_vs_fuel_ratio_dfs
  | Some mpgde_fuel =>
      do energy_density_fuel <-
        loc fuel_info_df fuel "Energy Density (MJ / kg)";
      do mass_density_fuel <-
        loc fuel_info_df fuel "Mass Density (kg / m^3)";
      do energy_density_diesel <-
        loc fuel_info_df "Diesel" "Energy Density (MJ / kg)";
      do mass_density_diesel <-
        loc fuel_info_df "Diesel" "Mass Density (kg / m^3)";
      let '(miles_per_kg_fuel, miles_per_m3_fuel) :=
        calculate_miles_per_fuel mpgde_fuel energy_density_fuel
          mass_density_fuel energy_density_diesel mass_density_diesel in
      let fuel_df :=
        range_rows miles_per_kg_fuel miles_per_m3_fuel
                   max_gvw dry_van_volume range_values in
      ret (setitem range_vs_fuel_ratio_dfs fuel fuel_df)
  end.

Definition create_range_vs_fuel_ratio_dfs_ordered
    (truck_info_df truck_fuel_info_df fuel_info_df : frame)
  : M num (list (string * list (Row num))) :=
  let range_vs_fuel_ratio_dfs : list (string * list (Row num)) := [] in
  do max_gvw <- loc truck_info_df "Max Gross Vehicle Weight (kg)" "Value";
  do dry_van_volume <- loc truck_info_df "Dry Van Volume (m^3)" "Value";
  let range_values := py_range 100 1001 100 in
  do fuels <- get_index fuel_info_df;
  for_each fuels
    (fuel_body_ordered truck_fuel_info_df fuel_info_df max_gvw
                       dry_van_volume range_values)
    range_vs_fuel_ratio_dfs.

(** The items after the loop over [fuels], or the exception that ends
    it. *)
Fixpoint items_from (entry : string -> result (option (list (Row num))))
    (fuels : list string) (d : list (string * list (Row num)))
  : result (list (string * list (Row num))) :=
  match fuels with
  | [] => Ok d
  | fuel :: rest =>
      match entry fuel with
      | Ok None => items_from entry rest d
      | Ok (Some t) => items_from entry rest (setitem d fuel t)
      | Raise e => Raise e
      end
  end.

(** The two axes [plt.subplots(2, 1, ...)] returns. *)
Inductive axes := ax1 | ax2.

(** The calls of matplotlib the program makes. *)
Inductive call :=
| subplots (nrows ncols : Z) (figsize : Z * Z) (sharex : bool)
| plot (ax : axes) (x : list Z) (y : list num) (label : string)
| set_xlabel (ax : axes) (text : string)
| set_ylabel (ax : axes) (text : string)
| set_title (ax : axes) (text : string)
| legend (ax : axes)
| tight_layout
| show.

(** [plot_fuel_mass_volume_percentage_stacked], as the calls it makes in
    the order it makes them; [df[column]] is the column of the table. *)
Definition plot_fuel_mass_volume_percentage_stacked
    (range_vs_fuel_ratio_dfs : list (string * list (Row num))) : list call :=
  [subplots 2 1 (10, 10) true]
  ++ map (fun '(fuel, df) =>
            plot ax1 (map truck_range df) (map fuel_volume_percentage df) fuel)
         range_vs_fuel_ratio_dfs
  ++ [set_ylabel ax1 "Fuel Volume (% of Dry Van Volume)";
      set_title ax1 "Fuel Volume as Percentage of Dry Van Volume";
      legend ax1]
  ++ map (fun '(fuel, df) =>
            plot ax2 (map truck_range df) (map fuel_mass_percentage df) fuel)
         range_vs_fuel_ratio_dfs
  ++ [set_xlabel ax2 "Truck Range (miles)";
      set_ylabel ax2 "Fuel Mass (% of GVW)";
      set_title ax2 "Fuel Mass as Percentage of GVW";
      legend ax2;
      tight_layout;
      show].

(** [main], from the three frames [read_csv] has put in memory: what it
    returns or raises, the world it leaves and the calls it has made. *)
Definition main (w : World num) : result unit * World num * list call :=
  match create_range_vs_fuel_ratio_dfs_ordered
          TruckInfo TruckFuelInfo FuelInfo w with
  | (Ok range_vs_fuel_ratio_dfs, w') =>
      (Ok tt, w', plot_fuel_mass_volume_percentage_stacked
                    range_vs_fuel_ratio_dfs)
  | (Raise e, w') => (Raise e, w', [])
  end.

(** The labels of the lines drawn on [ax], in the order of the calls. *)
Definition labels_on (ax : axes) (calls : list call) : list string :=
  flat_map
    (fun c =>
       match c, ax with
       | plot ax1 _ _ label, ax1 | plot ax2 _ _ label, ax2 => [label]
       | _, _ => []
       end)
    calls.

End Charts.

Arguments call num : clear implicits.

(** The example with the rows of the fuel-property table and the columns
    of its densities the other way round. *)
Definition example_world_reordered {num : Type} `{Number num} : World num :=
  world_of
    (truck_info (of_int 20000) (of_int 100))
    (frame_of ["Diesel"] ["MPGDE"] [[of_int 10]])
    (frame_of ["Hydrogen"; "Diesel"]
       ["Mass Density (kg / m^3)"; "Energy Density (MJ / kg)"]
       [[of_int 71; of_int 120]; [of_int 850; of_int 45]]).

(** The example with an empty rating for hydrogen, which [read_csv]
    reads as NaN. *)
Definition nan_world : World float :=
  world_of
    (truck_info 20000%float 100%float)
    (frame_of ["Diesel"; "Hydrogen"] ["MPGDE"] [[10%float]; [nan]])
    (frame_of ["Diesel"; "Hydrogen"] fuel_columns
       [[45%float; 850%float]; [120%float; 71%float]]).

(** The example with methanol added to the efficiency table and to the
    fuel-property table. *)
Definition example_world_with_methanol {num : Type} `{Number num} : World num :=
  world_of
    (truck_info (of_int 20000) (of_int 100))
    (frame_of ["Diesel"; "Methanol"] ["MPGDE"] [[of_int 10]; [of_int 7]])
    (frame_of ["Diesel"; "Hydrogen"; "Methanol"] fuel_columns
       [[of_int 45; of_int 850]; [of_int 120; of_int 71];
        [of_int 20; of_int 792]]).

(** ** The value of a binary64 number

    The claims about rounding compare what the program computes with the
    rationals, through the value of a binary64 number as the Standard
    Library's specification of the primitive floats gives it. *)

(** Two to the power [e]. *)
Definition pow2 (e : Z) : Q := Qpower 2 e.

(** The rational a floating-point datum stands for; a zero, an infinity
    and a NaN read 0. *)
Definition SF2Q (x : SpecFloat.spec_float) : Q :=
  match x with
  | SpecFloat.S754_finite s m e =>
      (inject_Z (if s then Zneg m else Zpos m) * pow2 e)%Q
  | _ => 0%Q
  end.

(** The value of a binary64 number: positive exactly when the number is
    finite and positive ([finite_positive_value]). *)
Definition fvalue (x : float) : Q := SF2Q (FloatOps.Prim2SF x).

(** [X] lies between 2^p and 2^q. *)
Definition in_range (p q : Z) (X : Q) : Prop :=
  (pow2 p <= X <= pow2 q)%Q.

(** The factor by which one rounding to nearest can move a number of the
    normal range: 1 / (1 - 2^-53). *)
Definition rounding_factor : Q := 9007199254740992 # 9007199254740991.

(** [rounding_factor] to the power [n]: the room for [n] roundings. *)
Definition slack (n : nat) : Q := Qpower rounding_factor (Z.of_nat n).

(** [x] is [X] up to [n] roundings. *)
Definition near (n : nat) (x X : Q) : Prop :=
  (X <= x * slack n /\ x <= X * slack n)%Q.

(** [mrs], the mantissa, round bit and sticky bit that the Standard
    Library's rounding works on, stands for the fraction [N / D]: the
    mantissa is its integer part, and the two bits tell where the rest
    stands with respect to one half. *)
Definition represents (mrs : SpecFloat.shr_record) (N D : Z) : Prop :=
  0 <= SpecFloat.shr_m mrs /\ 0 < D /\
  SpecFloat.shr_m mrs * D <= N < (SpecFloat.shr_m mrs + 1) * D /\
  match SpecFloat.shr_r mrs, SpecFloat.shr_s mrs with
  | false, false => N - SpecFloat.shr_m mrs * D = 0
  | false, true =>
      0 < N - SpecFloat.shr_m mrs * D /\ 2 * (N - SpecFloat.shr_m mrs * D) < D
  | true, false => 2 * (N - SpecFloat.shr_m mrs * D) = D
  | true, true => D < 2 * (N - SpecFloat.shr_m mrs * D)
  end.

(** * What a run computes from the frames *)

Section Run.

Context {num : Type} `{Number num}.

Implicit Types (w : World num) (fuel : string).
Implicit Types (acc m : gmap string (list (Row num))).

(** ** Lookups *)

Lemma get_loc_None labels key : get_loc labels key = None <-> key ∉ labels.
Proof.
  induction labels as [|l rest IH]; simpl.
  - split; [intros _; apply not_elem_of_nil | done].
  - destruct (String.eqb_spec l key) as [->|Hne].
    + split; [done | intros Hn; exfalso; apply Hn; left].
    + destruct (get_loc rest key) eqn:E; simpl.
      * split; [done|]. intros Hn. exfalso. apply Hn. right.
        destruct (decide (key ∈ rest)) as [|Hn']; [done|].
        apply IH in Hn'. discriminate.
      * split; [|done]. intros _ Hin.
        apply elem_of_cons in Hin as [->|Hin]; [done|].
        by apply IH in Hin.
Qed.

Lemma get_loc_Some labels key : key ∈ labels -> is_Some (get_loc labels key).
Proof.
  intros Hin. destruct (get_loc labels key) eqn:E; [eauto|].
  by apply get_loc_None in E.
Qed.

Lemma df_loc_row_missing (df : DataFrame num) row col :
  row ∉ index df -> exists e, df_loc df row col = Raise e.
Proof.
  intros Hn. unfold df_loc. apply get_loc_None in Hn as ->.
  destruct (get_loc (columns df) col); eauto.
Qed.

Lemma df_loc_col_missing (df : DataFrame num) row col :
  col ∉ columns df -> exists e, df_loc df row col = Raise e.
Proof.
  intros Hn. unfold df_loc. apply get_loc_None in Hn as ->. eauto.
Qed.

Lemma df_loc_present (df : DataFrame num) row col :
  row ∈ index df -> col ∈ columns df -> exists v, df_loc df row col = Ok v.
Proof.
  intros [i Hi]%get_loc_Some [j Hj]%get_loc_Some.
  unfold df_loc. rewrite Hi, Hj. eauto.
Qed.

Lemma df_loc_Ok_inv (df : DataFrame num) row col v :
  df_loc df row col = Ok v -> row ∈ index df /\ col ∈ columns df.
Proof.
  unfold df_loc. intros Hv.
  destruct (get_loc (columns df) col) eqn:Ec; [|discriminate].
  destruct (get_loc (index df) row) eqn:Er; [|discriminate].
  split.
  - destruct (decide (row ∈ index df)) as [|Hn]; [done|].
    apply get_loc_None in Hn. congruence.
  - destruct (decide (col ∈ columns df)) as [|Hn]; [done|].
    apply get_loc_None in Hn. congruence.
Qed.

(** ** The inner loop *)

Lemma range_rows_map (k v g d : num) (rv : list Z) :
  range_rows k v g d rv = map (range_row k v g d) rv.
Proof.
  unfold range_rows.
  enough (forall rows,
    fold_left (fun rows r => rows ++ [range_row k v g d r]) rv rows
    = rows ++ map (range_row k v g d) rv) as Hgen by apply (Hgen []).
  induction rv as [|r rv IH]; intros rows; simpl.
  - by rewrite app_nil_r.
  - rewrite IH. by rewrite <- app_assoc.
Qed.

Lemma range_values_ladder :
  py_range 100 1001 100 = [100; 200; 300; 400; 500; 600; 700; 800; 900; 1000].
Proof. reflexivity. Qed.

(** ** One fuel *)

Lemma get_mpgde_run fuel (tff : frame) w :
  get_mpgde fuel tff w =
  match df_loc (heap w tff) fuel "MPGDE" with
  | Ok v => (Ok (Some v), w)
  | Raise _ => (Ok None, reported w fuel)
  end.
Proof.
  unfold get_mpgde, try_except_KeyError, bind, loc, lift, ret, print.
  destruct (df_loc (heap w tff) fuel "MPGDE") as [v|[key]]; reflexivity.
Qed.

Lemma fuel_body_run (tff fif : frame) (g d : num) rv acc fuel w :
  fuel_body tff fif g d rv acc fuel w =
  match fuel_table (heap w tff) (heap w fif) g d rv fuel with
  | Ok None => (Ok acc, reported w fuel)
  | Ok (Some t) => (Ok (<[fuel := t]> acc), w)
  | Raise e => (Raise e, w)
  end.
Proof.
  unfold fuel_body, fuel_table, miles_per_fuel_of, bind at 1.
  rewrite get_mpgde_run.
  destruct (df_loc (heap w tff) fuel "MPGDE") as [mp|e0]; [|reflexivity].
  unfold bind, loc, lift, ret.
  destruct (df_loc (heap w fif) fuel "Energy Density (MJ / kg)"); [|reflexivity].
  destruct (df_loc (heap w fif) fuel "Mass Density (kg / m^3)"); [|reflexivity].
  destruct (df_loc (heap w fif) "Diesel" "Energy Density (MJ / kg)"); [|reflexivity].
  destruct (df_loc (heap w fif) "Diesel" "Mass Density (kg / m^3)"); [|reflexivity].
  reflexivity.
Qed.

(** ** The loop over the fuels *)

Lemma for_each_fuel_run (tff fif : frame) (g d : num) rv fuels acc w :
  heap (snd (for_each fuels (fuel_body tff fif g d rv) acc w)) = heap w /\
  fst (for_each fuels (fuel_body tff fif g d rv) acc w)
  = tables_from (fuel_table (heap w tff) (heap w fif) g d rv) fuels acc.
Proof.
  revert acc w. induction fuels as [|fuel rest IH]; intros acc w; simpl.
  - done.
  - unfold bind. rewrite fuel_body_run.
    destruct (fuel_table (heap w tff) (heap w fif) g d rv fuel) as [[t|]|e].
    + apply IH.
    + destruct (IH acc (reported w fuel)) as [Hh Hr]. simpl in Hh, Hr. done.
    + done.
Qed.

Lemma fuel_table_rated (tff fif : DataFrame num) (g d : num) rv fuel :
  match fuel_table tff fif g d rv fuel with
  | Ok None => is_rated tff fuel = false
  | Ok (Some _) => is_rated tff fuel = true
  | Raise _ => is_rated tff fuel = true
  end.
Proof.
  unfold fuel_table, is_rated.
  destruct (df_loc tff fuel "MPGDE"); [|done].
  by destruct (miles_per_fuel_of tff fif fuel) as [[k v]|].
Qed.

Lemma for_each_fuel_console (tff fif : frame) (g d : num) rv fuels acc w m w' :
  for_each fuels (fuel_body tff fif g d rv) acc w = (Ok m, w') ->
  stdout w' = stdout w ++
    map not_found_message
      (List.filter (fun fuel => negb (is_rated (heap w tff) fuel)) fuels).
Proof.
  revert acc w. induction fuels as [|fuel rest IH]; intros acc w; simpl.
  - unfold ret. intros [= _ <-]. by rewrite app_nil_r.
  - unfold bind. rewrite fuel_body_run.
    pose proof (fuel_table_rated (heap w tff) (heap w fif) g d rv fuel) as Hr.
    destruct (fuel_table (heap w tff) (heap w fif) g d rv fuel) as [[t|]|e];
      rewrite Hr; simpl.
    + apply IH.
    + intros Hrun. apply IH in Hrun. simpl in Hrun.
      by rewrite Hrun, <- app_assoc.
    + discriminate.
Qed.

Section TablesFrom.

Variable entry : string -> result (option (list (Row num))).

Lemma tables_from_lookup fuels acc m fuel t :
  tables_from entry fuels acc = Ok m ->
  m !! fuel = Some t ->
  (fuel ∈ fuels /\ entry fuel = Ok (Some t)) \/ acc !! fuel = Some t.
Proof.
  revert acc. induction fuels as [|f rest IH]; intros acc Hrun Hm; simpl in Hrun.
  - right. congruence.
  - destruct (entry f) as [[tf|]|e] eqn:Ef; [| |discriminate].
    + destruct (IH _ Hrun Hm) as [[Hin He]|Hacc].
      * left. split; [by right | done].
      * destruct (decide (f = fuel)) as [->|Hne].
        -- rewrite lookup_insert_eq in Hacc. left. split; [left | congruence].
        -- rewrite lookup_insert_ne in Hacc by done. by right.
    + destruct (IH _ Hrun Hm) as [[Hin He]|Hacc].
      * left. split; [by right | done].
      * by right.
Qed.

Lemma tables_from_keeps fuels acc m fuel t :
  tables_from entry fuels acc = Ok m ->
  entry fuel = Ok (Some t) ->
  acc !! fuel = Some t ->
  m !! fuel = Some t.
Proof.
  revert acc. induction fuels as [|f rest IH]; intros acc Hrun He Hacc; simpl in Hrun.
  - congruence.
  - destruct (entry f) as [[tf|]|e] eqn:Ef; [| |discriminate].
    + apply (IH _ Hrun He).
      destruct (decide (f = fuel)) as [->|Hne].
      * rewrite lookup_insert_eq. congruence.
      * by rewrite lookup_insert_ne.
    + by apply (IH _ Hrun He).
Qed.

Lemma tables_from_complete fuels acc m fuel t :
  tables_from entry fuels acc = Ok m ->
  fuel ∈ fuels ->
  entry fuel = Ok (Some t) ->
  m !! fuel = Some t.
Proof.
  revert acc. induction fuels as [|f rest IH]; intros acc Hrun Hin He; simpl in Hrun.
  - by apply elem_of_nil in Hin.
  - destruct (decide (f = fuel)) as [->|Hne].
    + rewrite He in Hrun. eapply tables_from_keeps; [done..|].
      apply lookup_insert_eq.
    + apply elem_of_cons in Hin as [->|Hin]; [done|].
      destruct (entry f) as [[tf|]|e]; [| |discriminate]; by eapply IH.
Qed.

Lemma tables_from_raises fuels acc fuel e :
  fuel ∈ fuels -> entry fuel = Raise e ->
  exists e', tables_from entry fuels acc = Raise e'.
Proof.
  revert acc. induction fuels as [|f rest IH]; intros acc Hin He; simpl.
  - by apply elem_of_nil in Hin.
  - destruct (entry f) as [[tf|]|e0] eqn:Ef; [| |eauto].
    + apply elem_of_cons in Hin as [->|Hin]; [congruence|]. by apply IH.
    + apply elem_of_cons in Hin as [->|Hin]; [congruence|]. by apply IH.
Qed.

Lemma tables_from_all_skipped fuels acc :
  (forall fuel, fuel ∈ fuels -> entry fuel = Ok None) ->
  tables_from entry fuels acc = Ok acc.
Proof.
  induction fuels as [|f rest IH]; intros Hall; simpl.
  - done.
  - rewrite (Hall f) by left. apply IH. intros fuel Hin. apply Hall. by right.
Qed.

End TablesFrom.

(** ** The whole function *)

Lemma create_run (tif tff fif : frame) w :
  heap (snd (create_range_vs_fuel_ratio_dfs tif tff fif w)) = heap w /\
  fst (create_range_vs_fuel_ratio_dfs tif tff fif w)
  = tables_of (heap w tif) (heap w tff) (heap w fif).
Proof.
  unfold create_range_vs_fuel_ratio_dfs, tables_of, bind, loc, lift, get_index.
  destruct (df_loc (heap w tif) "Max Gross Vehicle Weight (kg)" "Value");
    [|done].
  destruct (df_loc (heap w tif) "Dry Van Volume (m^3)" "Value"); [|done].
  apply for_each_fuel_run.
Qed.

Lemma fuel_table_Some_inv (tff fif : DataFrame num) (g d : num) rv fuel t :
  fuel_table tff fif g d rv fuel = Ok (Some t) ->
  exists k v,
    miles_per_fuel_of tff fif fuel = Ok (k, v) /\
    t = map (range_row k v g d) rv.
Proof.
  unfold fuel_table. intros Ht.
  destruct (df_loc tff fuel "MPGDE") as [mpgde|]; [|discriminate].
  destruct (miles_per_fuel_of tff fif fuel) as [[k v]|]; [|discriminate].
  exists k, v. rewrite <- range_rows_map. split; congruence.
Qed.

(** The table of a fuel in the returned mapping, in terms of the numbers
    the run read for it. *)
Lemma create_table (tif tff fif : frame) w m fuel table :
  fst (create_range_vs_fuel_ratio_dfs tif tff fif w) = Ok m ->
  m !! fuel = Some table ->
  exists max_gvw dry_van_volume k v,
    df_loc (heap w tif) "Max Gross Vehicle Weight (kg)" "Value" = Ok max_gvw /\
    df_loc (heap w tif) "Dry Van Volume (m^3)" "Value" = Ok dry_van_volume /\
    miles_per_fuel_of (heap w tff) (heap w fif) fuel = Ok (k, v) /\
    fuel ∈ index (heap w fif) /\
    table = map (range_row k v max_gvw dry_van_volume) (py_range 100 1001 100).
Proof.
  intros Hrun Hm. destruct (create_run tif tff fif w) as [_ Heq].
  rewrite Heq in Hrun. unfold tables_of in Hrun.
  destruct (df_loc (heap w tif) "Max Gross Vehicle Weight (kg)" "Value")
    as [g|]; [|discriminate].
  destruct (df_loc (heap w tif) "Dry Van Volume (m^3)" "Value")
    as [d|]; [|discriminate].
  destruct (tables_from_lookup _ _ _ _ _ _ Hrun Hm) as [[Hin He]|Hacc].
  - apply fuel_table_Some_inv in He as (k & v & Hkv & ->).
    exists g, d, k, v. repeat split; done.
  - by rewrite lookup_empty in Hacc.
Qed.

End Run.

(** * The claims that hold in any arithmetic *)

Section Claims.

Context {num : Type} `{Number num}.

Implicit Types (w : World num) (fuel : string) (row : Row num).
Implicit Types (m : gmap string (list (Row num))).

Lemma miles_per_fuel_of_rated (tff fif : DataFrame num) fuel kv :
  miles_per_fuel_of tff fif fuel = Ok kv ->
  exists mpgde, df_loc tff fuel "MPGDE" = Ok mpgde.
Proof.
  unfold miles_per_fuel_of.
  destruct (df_loc tff fuel "MPGDE") as [mpgde|]; [eauto | discriminate].
Qed.

Lemma miles_per_fuel_of_raises (tff fif : DataFrame num) fuel :
  "Diesel" ∉ index fif \/
  "Energy Density (MJ / kg)" ∉ columns fif \/
  "Mass Density (kg / m^3)" ∉ columns fif ->
  exists e, miles_per_fuel_of tff fif fuel = Raise e.
Proof.
  intros Hmiss. unfold miles_per_fuel_of.
  destruct (df_loc tff fuel "MPGDE"); [|eauto].
  destruct (df_loc fif fuel "Energy Density (MJ / kg)"); [|eauto].
  destruct (df_loc fif fuel "Mass Density (kg / m^3)"); [|eauto].
  destruct (df_loc fif "Diesel" "Energy Density (MJ / kg)") eqn:E1; [|eauto].
  destruct (df_loc fif "Diesel" "Mass Density (kg / m^3)") eqn:E2; [|eauto].
  apply df_loc_Ok_inv in E1 as [? ?]. apply df_loc_Ok_inv in E2 as [? ?].
  exfalso. tauto.
Qed.

(** C1. [calculate_miles_per_fuel] returns the pair (milesPerKg,
    milesPerM3) with milesPerKg = (mpgde / (mD / 264.172)) * eF / eD and
    milesPerM3 = milesPerKg * mF, in every arithmetic; the constant is the
    binary64 number nearest to 264.172 in binary64 and the fraction
    264172/1000 in exact arithmetic. *)
Theorem calculate_miles_per_fuel_formula :
  (forall mpgde eF mF eD mD : num,
     calculate_miles_per_fuel mpgde eF mF eD mD
     = ((mpgde / (mD / GALLONS_PER_M3)) * eF / eD,
        (mpgde / (mD / GALLONS_PER_M3)) * eF / eD * mF)%num)
  /\ GALLONS_PER_M3 (num := float) = 0x1.082c083126e98p+8%float
  /\ GALLONS_PER_M3 (num := Q) = (264172 # 1000)%Q.
Proof.
  split; [|split].
  - intros mpgde eF mF eD mD. unfold calculate_miles_per_fuel. reflexivity.
  - vm_compute. reflexivity.
  - reflexivity.
Qed.

(** C3. Every table of the mapping [create_range_vs_fuel_ratio_dfs]
    returns has exactly 10 rows, and its 'Truck Range (miles)' column is
    100, 200, ..., 1000 in this order. *)
Theorem table_range_ladder (tif tff fif : frame) w m fuel (table : list (Row num)) :
  fst (create_range_vs_fuel_ratio_dfs tif tff fif w) = Ok m ->
  m !! fuel = Some table ->
  length table = 10%nat /\
  map truck_range table
  = [100; 200; 300; 400; 500; 600; 700; 800; 900; 1000].
Proof.
  intros Hrun Hm.
  destruct (create_table _ _ _ _ _ _ _ Hrun Hm)
    as (g & d & k & v & _ & _ & _ & _ & ->).
  rewrite range_values_ladder. split; reflexivity.
Qed.


(** C5, as the code has it. In every row of every table of the mapping
    the mass percentage is (fuel mass / max gross vehicle weight) * 100
    and the volume percentage is (fuel volume / dry-van volume) * 100,
    the operations in this order. *)
Theorem percentage_columns (tif tff fif : frame) w m fuel
    (table : list (Row num)) row (max_gvw dry_van_volume : num) :
  fst (create_range_vs_fuel_ratio_dfs tif tff fif w) = Ok m ->
  m !! fuel = Some table ->
  row ∈ table ->
  df_loc (heap w tif) "Max Gross Vehicle Weight (kg)" "Value" = Ok max_gvw ->
  df_loc (heap w tif) "Dry Van Volume (m^3)" "Value" = Ok dry_van_volume ->
  fuel_mass_percentage row = (fuel_mass row / max_gvw * of_int 100)%num /\
  fuel_volume_percentage row
  = (fuel_volume row / dry_van_volume * of_int 100)%num.
Proof.
  intros Hrun Hm Hrow Hg Hd.
  destruct (create_table _ _ _ _ _ _ _ Hrun Hm)
    as (g & d & k & v & Hg' & Hd' & _ & _ & ->).
  assert (g = max_gvw) as -> by congruence.
  assert (d = dry_van_volume) as -> by congruence.
  apply list_elem_of_fmap in Hrow as (r & -> & _).
  split; reflexivity.
Qed.

(** C7, as the code has it. A missing truck attribute row or 'Value'
    column ends the run with a [KeyError] before anything is printed or
    returned.  A missing 'Diesel' row or fuel-property column ends it
    with a [KeyError] as soon as one fuel of the property table has an
    efficiency rating; when the efficiency table lists none of the fuels,
    these lookups are never made and the run returns the empty mapping. *)
Theorem fatal_lookups (tif tff fif : frame) w :
  ("Max Gross Vehicle Weight (kg)" ∉ index (heap w tif) \/
   "Dry Van Volume (m^3)" ∉ index (heap w tif) \/
   "Value" ∉ columns (heap w tif) ->
   exists e, create_range_vs_fuel_ratio_dfs tif tff fif w = (Raise e, w))
  /\
  (forall fuel mpgde,
     fuel ∈ index (heap w fif) ->
     df_loc (heap w tff) fuel "MPGDE" = Ok mpgde ->
     "Diesel" ∉ index (heap w fif) \/
     "Energy Density (MJ / kg)" ∉ columns (heap w fif) \/
     "Mass Density (kg / m^3)" ∉ columns (heap w fif) ->
     exists e, fst (create_range_vs_fuel_ratio_dfs tif tff fif w) = Raise e)
  /\
  (forall max_gvw dry_van_volume,
     df_loc (heap w tif) "Max Gross Vehicle Weight (kg)" "Value" = Ok max_gvw ->
     df_loc (heap w tif) "Dry Van Volume (m^3)" "Value" = Ok dry_van_volume ->
     (forall fuel, fuel ∈ index (heap w fif) -> fuel ∉ index (heap w tff)) ->
     fst (create_range_vs_fuel_ratio_dfs tif tff fif w) = Ok ∅).
Proof.
  split; [|split].
  - intros Hmiss.
    unfold create_range_vs_fuel_ratio_dfs, bind, loc, lift.
    destruct (df_loc (heap w tif) "Max Gross Vehicle Weight (kg)" "Value")
      as [g|e] eqn:Eg; [|eauto].
    destruct (df_loc (heap w tif) "Dry Van Volume (m^3)" "Value")
      as [d|e] eqn:Ed; [|eauto].
    apply df_loc_Ok_inv in Eg as [? ?]. apply df_loc_Ok_inv in Ed as [? ?].
    exfalso. tauto.
  - intros fuel mpgde Hin Hmp Hmiss.
    destruct (create_run tif tff fif w) as [_ ->]. unfold tables_of.
    destruct (df_loc (heap w tif) "Max Gross Vehicle Weight (kg)" "Value")
      as [g|e]; [|eauto].
    destruct (df_loc (heap w tif) "Dry Van Volume (m^3)" "Value")
      as [d|e]; [|eauto].
    destruct (miles_per_fuel_of_raises (heap w tff) (heap w fif) fuel Hmiss)
      as [e He].
    eapply tables_from_raises; [exact Hin|].
    unfold fuel_table. rewrite Hmp, He. reflexivity.
  - intros g d Hg Hd Hnone.
    destruct (create_run tif tff fif w) as [_ ->]. unfold tables_of.
    rewrite Hg, Hd. apply tables_from_all_skipped.
    intros fuel Hin. unfold fuel_table.
    by destruct (df_loc_row_missing (heap w tff) fuel "MPGDE"
                   (Hnone fuel Hin)) as [e ->].
Qed.

(** C8. Two runs on equal frames return equal results, whatever was on
    the console before; a run leaves the three frames as they were; and
    its result is the function [tables_of] of the three frames. *)
Theorem create_is_a_function_of_the_frames (tif tff fif : frame) w1 w2 :
  heap w1 tif = heap w2 tif ->
  heap w1 tff = heap w2 tff ->
  heap w1 fif = heap w2 fif ->
  fst (create_range_vs_fuel_ratio_dfs tif tff fif w1)
  = fst (create_range_vs_fuel_ratio_dfs tif tff fif w2) /\
  heap (snd (create_range_vs_fuel_ratio_dfs tif tff fif w1)) = heap w1 /\
  fst (create_range_vs_fuel_ratio_dfs tif tff fif w1)
  = tables_of (heap w1 tif) (heap w1 tff) (heap w1 fif).
Proof.
  intros Hti Htff Hfif.
  destruct (create_run tif tff fif w1) as [Hh1 Hr1].
  destruct (create_run tif tff fif w2) as [_ Hr2].
  split; [|split]; [|exact Hh1|exact Hr1].
  rewrite Hr1, Hr2, Hti, Htff, Hfif. reflexivity.
Qed.

(** ** Further properties of a run *)

(** X1. In every arithmetic, binary64 included, a row holds the quotient
    of its target range by the fuel's miles-per-kg as its fuel mass, and
    the quotient by the miles-per-m3 as its fuel volume. *)
Theorem rows_are_quotients (tif tff fif : frame) w m fuel
    (table : list (Row num)) row (k v : num) :
  fst (create_range_vs_fuel_ratio_dfs tif tff fif w) = Ok m ->
  m !! fuel = Some table ->
  row ∈ table ->
  miles_per_fuel_of (heap w tff) (heap w fif) fuel = Ok (k, v) ->
  fuel_mass row = (of_int (truck_range row) / k)%num /\
  fuel_volume row = (of_int (truck_range row) / v)%num.
Proof.
  intros Hrun Hm Hrow Hkv.
  destruct (create_table _ _ _ _ _ _ _ Hrun Hm)
    as (g & d & k' & v' & _ & _ & Hkv' & _ & ->).
  assert (k' = k /\ v' = v) as [-> ->] by (split; congruence).
  apply list_elem_of_fmap in Hrow as (r & -> & _).
  split; reflexivity.
Qed.

(** X2. The keys of the returned mapping are the fuels of the
    fuel-property table for which [get_mpgde] finds a rating. *)
Theorem keys_are_the_rated_fuels (tif tff fif : frame) w m fuel :
  fst (create_range_vs_fuel_ratio_dfs tif tff fif w) = Ok m ->
  is_Some (m !! fuel) <->
  fuel ∈ index (heap w fif) /\ is_rated (heap w tff) fuel = true.
Proof.
  intros Hrun. split.
  - intros [table Hm].
    destruct (create_table _ _ _ _ _ _ _ Hrun Hm)
      as (g & d & k & v & _ & _ & Hkv & Hin & _).
    split; [exact Hin|].
    apply miles_per_fuel_of_rated in Hkv as [mpgde Hmp].
    unfold is_rated. by rewrite Hmp.
  - intros [Hin Hrated].
    destruct (create_run tif tff fif w) as [_ Heq].
    rewrite Heq in Hrun. unfold tables_of in Hrun.
    destruct (df_loc (heap w tif) "Max Gross Vehicle Weight (kg)" "Value")
      as [g|]; [|discriminate].
    destruct (df_loc (heap w tif) "Dry Van Volume (m^3)" "Value")
      as [d|]; [|discriminate].
    pose proof (fuel_table_rated (heap w tff) (heap w fif) g d
                  (py_range 100 1001 100) fuel) as Hr.
    destruct (fuel_table (heap w tff) (heap w fif) g d
                (py_range 100 1001 100) fuel) as [[t|]|e] eqn:Et.
    + exists t. by eapply tables_from_complete.
    + congruence.
    + destruct (tables_from_raises _ _ ∅ _ _ Hin Et) as [e' He']. congruence.
Qed.

(** X3. A run that returns has printed one line for each fuel of the
    fuel-property table without a rating, in the order of the table, and
    nothing else. *)
Theorem console_lists_the_skipped_fuels (tif tff fif : frame) w m w' :
  create_range_vs_fuel_ratio_dfs tif tff fif w = (Ok m, w') ->
  stdout w' = stdout w ++
    map not_found_message
      (List.filter (fun fuel => negb (is_rated (heap w tff) fuel))
                   (index (heap w fif))).
Proof.
  unfold create_range_vs_fuel_ratio_dfs, bind, loc, lift, get_index.
  destruct (df_loc (heap w tif) "Max Gross Vehicle Weight (kg)" "Value");
    [|discriminate].
  destruct (df_loc (heap w tif) "Dry Van Volume (m^3)" "Value");
    [|discriminate].
  apply for_each_fuel_console.
Qed.

End Claims.

(** * Rounding in binary64

    The Standard Library specifies the primitive floats by functions on
    integers ([SpecFloat]).  This part derives from that specification
    what the claims about rounding need: a product or a quotient of two
    finite positive binary64 numbers whose exact value lies in the
    normal range is finite, positive and within a relative error of
    2^-53 of the exact value. *)

(** ** The integer digits of the rounding *)

Section RoundingZ.

Import SpecFloat FloatOps.

Lemma digits2_pos_bounds (p : positive) :
  2 ^ (Zpos (digits2_pos p) - 1) <= Zpos p < 2 ^ Zpos (digits2_pos p).
Proof.
  induction p as [p IH|p IH|]; simpl digits2_pos.
  - rewrite Pos2Z.inj_succ.
    replace (Z.succ (Zpos (digits2_pos p)) - 1)
      with (Z.succ (Zpos (digits2_pos p) - 1)) by lia.
    rewrite !Z.pow_succ_r by lia. lia.
  - rewrite Pos2Z.inj_succ.
    replace (Z.succ (Zpos (digits2_pos p)) - 1)
      with (Z.succ (Zpos (digits2_pos p) - 1)) by lia.
    rewrite !Z.pow_succ_r by lia. lia.
  - simpl. lia.
Qed.

Lemma Zdigits2_bounds (m : Z) :
  0 < m -> 2 ^ (Zdigits2 m - 1) <= m < 2 ^ Zdigits2 m.
Proof. destruct m as [|p|p]; [lia| |lia]. intros _. apply digits2_pos_bounds. Qed.

Lemma Zdigits2_pos (m : Z) : 0 < m -> 0 < Zdigits2 m.
Proof. destruct m; simpl; lia. Qed.

Lemma Zdigits2_unique (m d : Z) :
  0 < m -> 2 ^ (d - 1) <= m < 2 ^ d -> Zdigits2 m = d.
Proof.
  intros Hm [Hlo Hhi].
  pose proof (Zdigits2_bounds m Hm) as [Hlo' Hhi'].
  pose proof (Zdigits2_pos m Hm) as Hd'.
  assert (0 < d) as Hd.
  { destruct (Z_lt_le_dec 0 d) as [|Hle]; [done|].
    destruct (Z.eq_dec d 0) as [->|]; [simpl in Hhi; lia|].
    rewrite (Z.pow_neg_r 2 d) in Hhi by lia. lia. }
  assert (d - 1 < Zdigits2 m).
  { apply (Z.pow_lt_mono_r_iff 2); lia. }
  assert (Zdigits2 m - 1 < d).
  { apply (Z.pow_lt_mono_r_iff 2); lia. }
  lia.
Qed.


Lemma shr_1_represents (mrs : shr_record) (N D : Z) :
  represents mrs N D -> represents (shr_1 mrs) N (2 * D).
Proof.
  destruct mrs as [m r s]. unfold represents. simpl.
  intros (Hm & HD & Hrange & Hloc).
  destruct m as [|[p|p|]|p]; [..|lia]; destruct r, s; simpl; lia.
Qed.

Lemma iter_pos_represents (n : positive) (mrs : shr_record) (N D : Z) :
  represents mrs N D ->
  represents (iter_pos shr_1 n mrs) N (2 ^ Zpos n * D).
Proof.
  revert mrs D. induction n as [n IH|n IH|]; intros mrs D H; simpl iter_pos.
  - replace (2 ^ Zpos n~1 * D) with (2 ^ Zpos n * (2 ^ Zpos n * (2 * D))).
    + apply IH, IH, shr_1_represents, H.
    + replace (Zpos n~1) with (Zpos n + Zpos n + 1) by lia.
      rewrite !Z.pow_add_r by lia. rewrite Z.pow_1_r. ring.
  - replace (2 ^ Zpos n~0 * D) with (2 ^ Zpos n * (2 ^ Zpos n * D)).
    + apply IH, IH, H.
    + replace (Zpos n~0) with (Zpos n + Zpos n) by lia.
      rewrite !Z.pow_add_r by lia. ring.
  - rewrite Z.pow_1_r. apply shr_1_represents, H.
Qed.

Lemma shr_represents (mrs : shr_record) (e n N D : Z) :
  represents mrs N D -> 0 <= n ->
  represents (fst (shr mrs e n)) N (2 ^ n * D) /\ snd (shr mrs e n) = e + n.
Proof.
  intros H Hn. destruct n as [|p|p]; [| |lia]; simpl.
  - split; [|lia]. by destruct D.
  - split; [|reflexivity]. by apply iter_pos_represents.
Qed.

Lemma shr_nonpos (mrs : shr_record) (e n : Z) :
  n <= 0 -> shr mrs e n = (mrs, e).
Proof. by destruct n as [|p|p]; [| lia |]. Qed.

Lemma shr_m_of_loc (m : Z) (l : location) :
  shr_m (shr_record_of_loc m l) = m.
Proof. by destruct l as [|[]]. Qed.

Lemma round_nearest_even_represents (mrs : shr_record) (N D : Z) :
  represents mrs N D ->
  shr_m mrs <= round_nearest_even (shr_m mrs) (loc_of_shr_record mrs)
            <= shr_m mrs + 1 /\
  2 * Z.abs (round_nearest_even (shr_m mrs) (loc_of_shr_record mrs) * D - N)
  <= D.
Proof.
  destruct mrs as [m r s]. unfold represents. simpl.
  intros (Hm & HD & Hrange & Hloc).
  destruct r, s; simpl; [|destruct (Z.even m)|..]; lia.
Qed.

Lemma fexp_normal (e : Z) :
  -1074 <= e - 53 -> fexp prec emax e = e - 53.
Proof. unfold fexp, emin, prec, emax. lia. Qed.


(** The second normalisation of [binary_round_aux], on a mantissa that
    rounding has left in [2^52, 2^53]. *)
Lemma shr_fexp_rounded (sx : bool) (m e : Z) :
  2 ^ 52 <= m <= 2 ^ 53 -> -1074 <= e <= 970 ->
  exists (m' : positive) (e' : Z),
    (let '(mrs, e2) := shr_fexp prec emax m e loc_Exact in
     match shr_m mrs with
     | Z0 => S754_zero sx
     | Zpos p =>
         if e2 <=? emax - prec then S754_finite sx p e2 else S754_infinity sx
     | Zneg _ => S754_nan
     end) = S754_finite sx m' e' /\
    e <= e' /\ Zpos m' * 2 ^ (e' - e) = m.
Proof.
  intros Hm He. unfold shr_fexp.
  destruct (Z.eq_dec m (2 ^ 53)) as [->|Hne].
  - exists (Z.to_pos (2 ^ 52)), (e + 1).
    replace (Zdigits2 (2 ^ 53)) with 54 by reflexivity.
    rewrite fexp_normal by lia.
    replace (54 + e - 53 - e) with 1 by lia.
    assert (shr (shr_record_of_loc (2 ^ 53) loc_Exact) e 1
            = (Build_shr_record (2 ^ 52) false false, e + 1)) as ->.
    { cbv [shr]. f_equal. }
    replace (e + 1 <=? emax - prec) with true.
    + split; [reflexivity|]. split; [lia|].
      replace (e + 1 - e) with 1 by lia. reflexivity.
    + symmetry. apply Z.leb_le. unfold emax, prec. lia.
  - assert (Zdigits2 m = 53) as Hd.
    { apply Zdigits2_unique; [lia|]. replace (53 - 1) with 52 by lia. lia. }
    rewrite Hd, fexp_normal by lia.
    rewrite shr_nonpos by lia. rewrite shr_m_of_loc.
    destruct m as [|p|p]; [lia| |lia].
    exists p, e. replace (e <=? emax - prec) with true.
    + split; [reflexivity|]. split; [lia|].
      rewrite Z.sub_diag. simpl. lia.
    + symmetry. apply Z.leb_le. unfold emax, prec. lia.
Qed.


(** [binary_round_aux] on a fraction that lies in the normal range: the
    result is finite, and within half a unit in the last place, which is
    at most 2^-53 of the fraction. *)
Lemma binary_round_aux_normal (mx ex : Z) (lx : location) (N D : Z) :
  0 < mx ->
  represents (shr_record_of_loc mx lx) N D ->
  53 <= Zdigits2 mx \/ (lx = loc_Exact /\ ex <= 971) ->
  -1074 <= Zdigits2 mx + ex - 53 ->
  Zdigits2 mx + ex <= 1023 ->
  exists (m : positive) (e : Z),
    binary_round_aux prec emax false mx ex lx = S754_finite false m e /\
    ex <= e /\
    2 ^ 53 * Z.abs (Zpos m * 2 ^ (e - ex) * D - N) <= N.
Proof.
  intros Hmx Hrep Hcase Hlo Hhi.
  pose proof (Zdigits2_bounds mx Hmx) as Hd.
  pose proof Hrep as (_ & HD & Hrange & _). rewrite shr_m_of_loc in Hrange.
  unfold binary_round_aux.
  destruct (Z_le_gt_dec 53 (Zdigits2 mx)) as [Hd53|Hd53].
  - unfold shr_fexp at 1. rewrite fexp_normal by lia.
    set (n := Zdigits2 mx + ex - 53 - ex).
    assert (0 <= n) as Hn0 by lia.
    destruct (shr_represents _ ex n N D Hrep Hn0) as [Hrep' He'].
    destruct (shr (shr_record_of_loc mx lx) ex n) as [mrs' e'].
    simpl in Hrep', He'.
    pose proof Hrep' as (Hm0 & _ & Hrange' & _).
    assert (0 < 2 ^ n) as HP by (apply Z.pow_pos_nonneg; lia).
    assert (2 ^ (Zdigits2 mx - 1) = 2 ^ 52 * 2 ^ n) as E1.
    { rewrite <- Z.pow_add_r by lia. f_equal. lia. }
    assert (2 ^ Zdigits2 mx = 2 ^ 53 * 2 ^ n) as E2.
    { rewrite <- Z.pow_add_r by lia. f_equal. lia. }
    rewrite E1, E2 in Hd.
    assert (2 ^ 52 <= shr_m mrs' < 2 ^ 53) as Hm'.
    { assert (shr_m mrs' * 2 ^ n < mx + 1).
      { apply (Z.mul_lt_mono_pos_r D); lia. }
      assert (mx < (shr_m mrs' + 1) * 2 ^ n).
      { apply (Z.mul_lt_mono_pos_r D); lia. }
      split.
      - apply Z.lt_succ_r. apply (Z.mul_lt_mono_pos_r (2 ^ n)); lia.
      - apply (Z.mul_lt_mono_pos_r (2 ^ n)); lia. }
    destruct (round_nearest_even_represents _ _ _ Hrep') as [Hr Herr].
    set (mr := round_nearest_even (shr_m mrs') (loc_of_shr_record mrs')) in *.
    destruct (shr_fexp_rounded false mr e') as (m & e & -> & Hee & HM); [lia..|].
    exists m, e. split; [reflexivity|]. split; [lia|].
    replace (e - ex) with ((e - e') + n) by lia.
    rewrite Z.pow_add_r by lia.
    replace (Zpos m * (2 ^ (e - e') * 2 ^ n) * D - N)
      with (mr * (2 ^ n * D) - N) by (rewrite <- HM; ring).
    change (2 ^ 53) with (2 ^ 52 * 2).
    rewrite <- Z.mul_assoc.
    transitivity (2 ^ 52 * (2 ^ n * D)); [apply Z.mul_le_mono_nonneg_l; lia|].
    transitivity (mx * D); [|lia].
    rewrite Z.mul_assoc. apply Z.mul_le_mono_nonneg_r; lia.
  - destruct Hcase as [?|[-> Hex]]; [lia|].
    unfold shr_fexp. rewrite fexp_normal by lia.
    rewrite shr_nonpos by lia. rewrite shr_m_of_loc. simpl round_nearest_even.
    rewrite fexp_normal by lia.
    rewrite shr_nonpos by lia. rewrite shr_m_of_loc.
    destruct mx as [|p|p]; [lia| |lia].
    exists p, ex. replace (ex <=? emax - prec) with true.
    + split; [reflexivity|]. split; [lia|].
      rewrite Z.sub_diag. destruct Hrep as (_ & _ & _ & Hloc).
      simpl in Hloc. replace (Zpos p * 2 ^ 0 * D - N) with 0 by (simpl; lia).
      simpl. lia.
    + symmetry. apply Z.leb_le. unfold emax, prec. lia.
Qed.


Lemma Zdigits2_ge (m k : Z) : 2 ^ (k - 1) <= m -> 1 <= k -> k <= Zdigits2 m.
Proof.
  intros Hk Hk1.
  assert (0 < m) as Hm.
  { eapply Z.lt_le_trans; [|exact Hk]. apply Z.pow_pos_nonneg; lia. }
  pose proof (Zdigits2_bounds m Hm) as [_ Hhi].
  pose proof (Zdigits2_pos m Hm).
  assert (k - 1 < Zdigits2 m); [|lia].
  apply (Z.pow_lt_mono_r_iff 2); lia.
Qed.

Lemma new_location_represents (d r q N : Z) :
  0 < d -> 0 <= r < d -> N = d * q + r -> 0 <= q ->
  represents (shr_record_of_loc q (new_location d r)) N d.
Proof.
  intros Hd Hr -> Hq. unfold new_location.
  destruct (Z.even d) eqn:Ed.
  - unfold new_location_even. destruct (Z.eqb_spec r 0) as [->|Hr0].
    + unfold represents. simpl. lia.
    + destruct (Z.compare_spec (2 * r) d); unfold represents; simpl; lia.
  - assert (Z.odd d = true) as Hodd by (rewrite <- Z.negb_even, Ed; done).
    apply Z.odd_spec in Hodd as [k Hk].
    unfold new_location_odd. destruct (Z.eqb_spec r 0) as [->|Hr0].
    + unfold represents. simpl. lia.
    + destruct (Z.compare_spec (2 * r + 1) d); unfold represents; simpl; lia.
Qed.

(** The quotient that [SFdiv] hands to the rounding: at least 53 bits of
    the fraction [m1 * 2^s / m2]. *)
Lemma SFdiv_core_binary_represents (m1 m2 : positive) (e1 e2 : Z) :
  -1074 <= Zdigits2 (Zpos m1) + e1 - (Zdigits2 (Zpos m2) + e2) - 53 ->
  exists (q e' : Z) (l : location) (s : Z),
    SFdiv_core_binary prec emax (Zpos m1) e1 (Zpos m2) e2 = (q, e', l) /\
    0 <= s /\ e' + s = e1 - e2 /\
    represents (shr_record_of_loc q l) (Zpos m1 * 2 ^ s) (Zpos m2) /\
    2 ^ 52 <= q.
Proof.
  intros Hlo. unfold SFdiv_core_binary.
  rewrite fexp_normal by lia.
  set (d1 := Zdigits2 (Zpos m1)) in *. set (d2 := Zdigits2 (Zpos m2)) in *.
  set (e' := Z.min (d1 + e1 - (d2 + e2) - 53) (e1 - e2)).
  set (s := e1 - e2 - e').
  assert (0 <= s) as Hs by lia.
  assert (match s with
          | Z0 => Zpos m1
          | Zpos _ => Z.shiftl (Zpos m1) s
          | Zneg _ => 0
          end = Zpos m1 * 2 ^ s) as ->.
  { destruct s as [|p|p] eqn:Es; [simpl; lia| |lia].
    rewrite Z.shiftl_mul_pow2 by lia. reflexivity. }
  pose proof (Z_div_mod (Zpos m1 * 2 ^ s) (Zpos m2)) as Hdiv.
  destruct (Z.div_eucl (Zpos m1 * 2 ^ s) (Zpos m2)) as [q r].
  destruct Hdiv as [HN Hr]; [lia|].
  pose proof (Zdigits2_bounds (Zpos m1)) as [H1 _]; [lia|].
  pose proof (Zdigits2_bounds (Zpos m2)) as [_ H2]; [lia|].
  pose proof (Zdigits2_pos (Zpos m1)). pose proof (Zdigits2_pos (Zpos m2)).
  fold d1 in H1. fold d2 in H2.
  assert (0 < 2 ^ s) as HP by (apply Z.pow_pos_nonneg; lia).
  assert (2 ^ 52 * Zpos m2 <= Zpos m1 * 2 ^ s) as Hbig.
  { transitivity (2 ^ 52 * 2 ^ d2); [apply Z.mul_le_mono_nonneg_l; lia|].
    rewrite <- Z.pow_add_r by lia.
    transitivity (2 ^ (d1 - 1) * 2 ^ s);
      [|apply Z.mul_le_mono_nonneg_r; lia].
    rewrite <- Z.pow_add_r by lia.
    apply Z.pow_le_mono_r; lia. }
  assert (2 ^ 52 <= q) as Hq.
  { assert (2 ^ 52 < q + 1); [|lia].
    apply (Z.mul_lt_mono_pos_l (Zpos m2)); lia. }
  exists q, e', (new_location (Zpos m2) r), s.
  split; [reflexivity|]. split; [exact Hs|]. split; [lia|].
  split; [|exact Hq].
  apply new_location_represents; lia.
Qed.

End RoundingZ.

(** ** The value of the rounded result *)

Section RoundingQ.

Import SpecFloat FloatOps FloatAxioms.
Local Open Scope Q_scope.

Lemma pow2_pos (e : Z) : 0 < pow2 e.
Proof. apply Qpower_0_lt. reflexivity. Qed.

Lemma pow2_add (a b : Z) : pow2 (a + b) == pow2 a * pow2 b.
Proof. apply Qpower_plus. discriminate. Qed.

Lemma pow2_le (a b : Z) : (a <= b)%Z -> pow2 a <= pow2 b.
Proof. intros H. apply Qpower_le_compat_l; [exact H|discriminate]. Qed.

Lemma pow2_le_inv (a b : Z) : pow2 a <= pow2 b -> (a <= b)%Z.
Proof. intros H. apply (Qpower_le_compat_l_inv 2); [exact H|reflexivity]. Qed.

Lemma pow2_lt_inv (a b : Z) : pow2 a < pow2 b -> (a < b)%Z.
Proof. intros H. apply (Qpower_lt_compat_l_inv 2); [exact H|reflexivity]. Qed.

Lemma pow2_Z (a : Z) : (0 <= a)%Z -> pow2 a == inject_Z (2 ^ a).
Proof. intros H. unfold pow2. by rewrite Zpower_Qpower. Qed.

Lemma fvalue_pos_inv (x : float) :
  0 < fvalue x -> exists m e, Prim2SF x = S754_finite false m e.
Proof.
  unfold fvalue. destruct (Prim2SF x) as [s|s| |s m e]; simpl;
    try (intros H; by apply Qlt_irrefl in H).
  destruct s; [|by eauto].
  intros H. exfalso. apply (Qlt_irrefl 0).
  eapply Qlt_trans; [exact H|].
  pose proof (pow2_pos e).
  assert (inject_Z (Z.neg m) < inject_Z 0) as Hneg by (rewrite <- Zlt_Qlt; lia).
  change (inject_Z 0) with 0 in Hneg. nra.
Qed.


Lemma binary_round_aux_value (mx ex : Z) (lx : location) (N D : Z) :
  (0 < mx)%Z ->
  represents (shr_record_of_loc mx lx) N D ->
  (53 <= Zdigits2 mx)%Z \/ (lx = loc_Exact /\ (ex <= 971)%Z) ->
  pow2 (-1022) <= inject_Z N / inject_Z D * pow2 ex <= pow2 1022 ->
  exists (m : positive) (e : Z),
    binary_round_aux prec emax false mx ex lx = S754_finite false m e /\
    Qabs (SF2Q (S754_finite false m e) - inject_Z N / inject_Z D * pow2 ex)
    <= inject_Z N / inject_Z D * pow2 ex * pow2 (-53).
Proof.
  intros Hmx Hrep Hcase [Hlo Hhi].
  pose proof (Zdigits2_bounds mx Hmx) as [Hd1 Hd2].
  pose proof (Zdigits2_pos mx Hmx) as Hd0.
  pose proof Hrep as (_ & HD & [Hr1 Hr2] & _). rewrite shr_m_of_loc in Hr1, Hr2.
  set (d := Zdigits2 mx) in *.
  assert (0 < inject_Z D) as HDq.
  { change 0 with (inject_Z 0). rewrite <- Zlt_Qlt. exact HD. }
  pose proof (pow2_pos ex) as Hp.
  set (t := inject_Z N / inject_Z D) in *.
  assert (inject_Z N == t * inject_Z D) as HN.
  { unfold t. field. intros E. rewrite E in HDq. by apply Qlt_irrefl in HDq. }
  assert (pow2 (d - 1) <= t) as Ht1.
  { rewrite pow2_Z by lia. apply Qle_shift_div_l; [exact HDq|].
    rewrite <- inject_Z_mult, <- Zle_Qle.
    transitivity (mx * D)%Z; [|exact Hr1].
    apply Z.mul_le_mono_nonneg_r; lia. }
  assert (t < pow2 d) as Ht2.
  { rewrite pow2_Z by lia. apply Qlt_shift_div_r; [exact HDq|].
    rewrite <- inject_Z_mult, <- Zlt_Qlt.
    eapply Z.lt_le_trans; [exact Hr2|].
    apply Z.mul_le_mono_nonneg_r; lia. }
  assert (-1022 < d + ex)%Z as Hlo'.
  { apply pow2_lt_inv. eapply Qle_lt_trans; [exact Hlo|].
    rewrite pow2_add. apply Qmult_lt_compat_r; assumption. }
  assert (d - 1 + ex <= 1022)%Z as Hhi'.
  { apply pow2_le_inv. eapply Qle_trans; [|exact Hhi].
    rewrite pow2_add. apply Qmult_le_compat_r; [exact Ht1|].
    by apply Qlt_le_weak. }
  destruct (binary_round_aux_normal mx ex lx N D Hmx Hrep Hcase)
    as (m & e & Hbra & Hee & Herr); [fold d; lia..|].
  exists m, e. split; [exact Hbra|].
  unfold SF2Q.
  replace e with ((e - ex) + ex)%Z at 1 by lia.
  rewrite pow2_add, pow2_Z by lia.
  rewrite Qmult_assoc, <- inject_Z_mult.
  set (a := inject_Z (Zpos m * 2 ^ (e - ex))).
  assert (- t <= 9007199254740992 * (a - t) <= t) as Ha.
  { assert (- (t * inject_Z D)
            <= 9007199254740992 * (a * inject_Z D - t * inject_Z D)
            <= t * inject_Z D) as Ha; [|split; nra].
    rewrite <- HN.
    assert (a * inject_Z D - inject_Z N
            == inject_Z (Zpos m * 2 ^ (e - ex) * D - N)) as ->.
    { unfold a, Z.sub.
      by rewrite inject_Z_plus, inject_Z_opp, inject_Z_mult. }
    change 9007199254740992 with (inject_Z (2 ^ 53)).
    rewrite <- inject_Z_mult, <- inject_Z_opp, <- !Zle_Qle.
    lia. }
  change (pow2 (-53)) with (1 # 9007199254740992).
  apply Qabs_Qle_condition. split; nra.
Qed.


Lemma Prim2SF_finite_valid (x : float) (s : bool) (m : positive) (e : Z) :
  Prim2SF x = S754_finite s m e ->
  (-1074 <= e <= 971)%Z /\ (Zdigits2 (Zpos m) <= 53)%Z /\
  (Zdigits2 (Zpos m) = 53 \/ e = -1074)%Z.
Proof.
  intros Hx. pose proof (Prim2SF_valid x) as Hv. rewrite Hx in Hv.
  unfold SpecFloat.valid_binary, bounded, canonical_mantissa in Hv.
  apply andb_prop in Hv as [Hc He].
  apply Z.eqb_eq in Hc. apply Z.leb_le in He.
  unfold fexp, emin, emax, prec in *. simpl Zdigits2. lia.
Qed.

Lemma fvalue_finite (x : float) (m : positive) (e : Z) :
  Prim2SF x = S754_finite false m e ->
  fvalue x = inject_Z (Zpos m) * pow2 e.
Proof. intros Hx. unfold fvalue. by rewrite Hx. Qed.

Lemma inject_Z_pos (m : positive) : 0 < inject_Z (Zpos m).
Proof. reflexivity. Qed.

(** A product in binary64, when the exact product lies between 2^-1000
    and 2^1000: finite, positive and within 2^-53 of the exact product,
    relatively. *)
Lemma mul_value (x y : float) :
  0 < fvalue x -> 0 < fvalue y ->
  pow2 (-1000) <= fvalue x * fvalue y <= pow2 1000 ->
  Qabs (fvalue (x * y) - fvalue x * fvalue y)
  <= fvalue x * fvalue y * pow2 (-53).
Proof.
  intros Hx Hy [Hlo Hhi].
  destruct (fvalue_pos_inv x Hx) as (mx & ex & Ex).
  destruct (fvalue_pos_inv y Hy) as (my & ey & Ey).
  destruct (Prim2SF_finite_valid _ _ _ _ Ex) as (Hex & Hdx & Hcx).
  destruct (Prim2SF_finite_valid _ _ _ _ Ey) as (Hey & Hdy & Hcy).
  rewrite (fvalue_finite x mx ex Ex), (fvalue_finite y my ey Ey) in *.
  unfold fvalue at 1. rewrite mul_spec, Ex, Ey.
  change (SF64mul (S754_finite false mx ex) (S754_finite false my ey))
    with (binary_round_aux prec emax false (Zpos (mx * my)) (ex + ey)
            loc_Exact).
  assert (inject_Z (Zpos (mx * my)) / inject_Z 1 * pow2 (ex + ey)
          == inject_Z (Zpos mx) * pow2 ex * (inject_Z (Zpos my) * pow2 ey))
    as HX.
  { rewrite pow2_add, Pos2Z.inj_mul, inject_Z_mult. field. }
  destruct (binary_round_aux_value (Zpos (mx * my)) (ex + ey) loc_Exact
              (Zpos (mx * my)) 1) as (m & e & -> & Herr).
  - lia.
  - unfold represents. simpl. lia.
  - destruct (Z_le_gt_dec 53 (Zdigits2 (Zpos (mx * my)))) as [|Hsmall];
      [by left|right]. split; [reflexivity|].
    pose proof (Zdigits2_bounds (Zpos mx)) as [H1 _]; [lia|].
    pose proof (Zdigits2_bounds (Zpos my)) as [H2 _]; [lia|].
    pose proof (Zdigits2_pos (Zpos mx)). pose proof (Zdigits2_pos (Zpos my)).
    assert (Zdigits2 (Zpos mx) + Zdigits2 (Zpos my) - 1
            <= Zdigits2 (Zpos (mx * my)))%Z; [|lia].
    apply Zdigits2_ge; [|lia].
    replace (Zdigits2 (Zpos mx) + Zdigits2 (Zpos my) - 1 - 1)%Z
      with ((Zdigits2 (Zpos mx) - 1) + (Zdigits2 (Zpos my) - 1))%Z by lia.
    rewrite Z.pow_add_r, Pos2Z.inj_mul by lia.
    apply Z.mul_le_mono_nonneg; try lia; apply Z.pow_nonneg; lia.
  - rewrite HX. split.
    + eapply Qle_trans; [|exact Hlo]. apply pow2_le. lia.
    + eapply Qle_trans; [exact Hhi|]. apply pow2_le. lia.
  - rewrite HX in Herr. exact Herr.
Qed.


Lemma Qpos_neq0 (a : Q) : 0 < a -> ~ a == 0.
Proof. intros H E. rewrite E in H. by apply Qlt_irrefl in H. Qed.

Lemma pow2_sub (a b : Z) : pow2 (a - b) == pow2 a / pow2 b.
Proof. apply Qpower_minus. discriminate. Qed.

(** A quotient in binary64, when the exact quotient lies between 2^-1000
    and 2^1000. *)
Lemma div_value (x y : float) :
  0 < fvalue x -> 0 < fvalue y ->
  pow2 (-1000) <= fvalue x / fvalue y <= pow2 1000 ->
  Qabs (fvalue (x / y) - fvalue x / fvalue y)
  <= fvalue x / fvalue y * pow2 (-53).
Proof.
  intros Hx Hy [Hlo Hhi].
  destruct (fvalue_pos_inv x Hx) as (mx & ex & Ex).
  destruct (fvalue_pos_inv y Hy) as (my & ey & Ey).
  rewrite (fvalue_finite x mx ex Ex), (fvalue_finite y my ey Ey) in *.
  unfold fvalue at 1. rewrite div_spec, Ex, Ey.
  change (SF64div (S754_finite false mx ex) (S754_finite false my ey))
    with (let '(mz, ez, lz) :=
            SFdiv_core_binary prec emax (Zpos mx) ex (Zpos my) ey in
          binary_round_aux prec emax false mz ez lz).
  pose proof (Zdigits2_bounds (Zpos mx)) as [_ H1]; [lia|].
  pose proof (Zdigits2_bounds (Zpos my)) as [H2 _]; [lia|].
  assert (0 < Zdigits2 (Zpos mx))%Z as Hdx by (apply Zdigits2_pos; lia).
  assert (0 < Zdigits2 (Zpos my))%Z as Hdy by (apply Zdigits2_pos; lia).
  set (dx := Zdigits2 (Zpos mx)) in *. set (dy := Zdigits2 (Zpos my)) in *.
  pose proof (pow2_pos ex) as HP. pose proof (pow2_pos ey) as HR.
  pose proof (inject_Z_pos mx) as HA. pose proof (inject_Z_pos my) as HB.
  set (A := inject_Z (Zpos mx)) in *. set (B := inject_Z (Zpos my)) in *.
  assert (A * pow2 ex / (B * pow2 ey)
          < pow2 (dx + ex - (dy + ey) + 1)) as Hup.
  { apply Qlt_shift_div_r; [nra|].
    apply Qlt_le_trans with (pow2 dx * pow2 ex).
    - apply Qmult_lt_compat_r; [exact HP|].
      unfold A. rewrite pow2_Z by lia. rewrite <- Zlt_Qlt. exact H1.
    - assert (pow2 dx * pow2 ex
              == pow2 (dx + ex - (dy + ey) + 1) * (pow2 (dy - 1) * pow2 ey))
        as ->.
      { rewrite <- !pow2_add. apply Qpower_comp; [reflexivity|lia]. }
      apply Qmult_le_l; [apply pow2_pos|].
      apply Qmult_le_compat_r; [|by apply Qlt_le_weak].
      unfold B. rewrite pow2_Z by lia. rewrite <- Zle_Qle. exact H2. }
  assert (-1000 < dx + ex - (dy + ey) + 1)%Z as HE.
  { apply pow2_lt_inv. eapply Qle_lt_trans; [exact Hlo|exact Hup]. }
  destruct (SFdiv_core_binary_represents mx my ex ey)
    as (q & e' & l & s & -> & Hs & Hes & Hrep & Hq); [fold dx dy; lia|].
  assert (inject_Z (Zpos mx * 2 ^ s) / inject_Z (Zpos my) * pow2 e'
          == A * pow2 ex / (B * pow2 ey)) as HX.
  { rewrite inject_Z_mult, <- pow2_Z by lia. fold A B.
    assert (pow2 s * pow2 e' == pow2 ex / pow2 ey) as Hse.
    { rewrite <- pow2_add, <- pow2_sub.
      apply Qpower_comp; [reflexivity|lia]. }
    transitivity (A / B * (pow2 s * pow2 e')).
    - field. by apply Qpos_neq0.
    - rewrite Hse. field. split; by apply Qpos_neq0. }
  destruct (binary_round_aux_value q e' l (Zpos mx * 2 ^ s) (Zpos my))
    as (m & e & -> & Herr).
  - lia.
  - exact Hrep.
  - left. apply Zdigits2_ge; [exact Hq|lia].
  - rewrite HX. split.
    + eapply Qle_trans; [|exact Hlo]. apply pow2_le. lia.
    + eapply Qle_trans; [exact Hhi|]. apply pow2_le. lia.
  - rewrite HX in Herr. exact Herr.
Qed.

End RoundingQ.

(** ** Rounding errors that add up *)

Ltac qreplace a b tac :=
  let E := fresh "E" in
  assert (a == b)%Q as E by tac; rewrite E; clear E.

Section Near.

Local Open Scope Q_scope.

Lemma slack_pos (n : nat) : 0 < slack n.
Proof. apply Qpower_0_lt. reflexivity. Qed.

Lemma slack_ge_1 (n : nat) : 1 <= slack n.
Proof. apply Qpower_1_le; [discriminate|lia]. Qed.

Lemma slack_add (n m : nat) : slack (n + m) == slack n * slack m.
Proof.
  unfold slack. rewrite Nat2Z.inj_add. apply Qpower_plus. discriminate.
Qed.

Lemma slack_mono (n m : nat) : (n <= m)%nat -> slack n <= slack m.
Proof.
  intros Hnm. apply Qpower_le_compat_l; [lia|discriminate].
Qed.

Lemma slack_16 (n : nat) : (n <= 16)%nat -> slack n <= 2.
Proof.
  intros Hn. eapply Qle_trans; [apply (slack_mono n 16 Hn)|].
  apply Qle_bool_iff. vm_compute. reflexivity.
Qed.

Lemma Qmult_le_compat_nonneg (a b c d : Q) :
  0 <= a <= b -> 0 <= c <= d -> a * c <= b * d.
Proof. intros [? ?] [? ?]. nra. Qed.

Lemma near_refl (x : Q) : near 0 x x.
Proof. unfold near. change (slack 0) with 1. split; lra. Qed.

Lemma near_pos (n : nat) (x X : Q) : near n x X -> 0 < X -> 0 < x.
Proof.
  intros [H _] HX. pose proof (slack_pos n) as Hs.
  destruct (Qlt_le_dec 0 x) as [|Hx]; [done|]. exfalso. nra.
Qed.

Lemma near_round (x X : Q) :
  0 < X -> Qabs (x - X) <= X * pow2 (-53) -> near 1 x X.
Proof.
  intros HX H. apply Qabs_Qle_condition in H as [H1 H2].
  change (pow2 (-53)) with (1 # 9007199254740992) in H1, H2.
  unfold near. change (slack 1) with rounding_factor.
  unfold rounding_factor. split; lra.
Qed.

Lemma near_trans (n m : nat) (x y z : Q) :
  near n x y -> near m y z -> near (n + m) x z.
Proof.
  intros [H1 H2] [H3 H4]. unfold near. rewrite slack_add.
  pose proof (slack_pos n). pose proof (slack_pos m).
  split.
  - apply Qle_trans with (y * slack m); [exact H3|].
    qreplace (x * (slack n * slack m)) ((x * slack n) * slack m) ltac:(ring).
    apply Qmult_le_compat_r; [exact H1|lra].
  - apply Qle_trans with (y * slack n); [exact H2|].
    qreplace (z * (slack n * slack m)) ((z * slack m) * slack n) ltac:(ring).
    apply Qmult_le_compat_r; [exact H4|lra].
Qed.

Lemma near_mul (n m : nat) (x y X Y : Q) :
  0 < X -> 0 < Y -> near n x X -> near m y Y ->
  near (n + m) (x * y) (X * Y).
Proof.
  intros HX HY Hx Hy.
  pose proof (near_pos _ _ _ Hx HX). pose proof (near_pos _ _ _ Hy HY).
  destruct Hx as [H1 H2], Hy as [H3 H4].
  unfold near. rewrite slack_add. split.
  - qreplace (x * y * (slack n * slack m)) ((x * slack n) * (y * slack m)) ltac:(ring).
    apply Qmult_le_compat_nonneg; lra.
  - qreplace (X * Y * (slack n * slack m)) ((X * slack n) * (Y * slack m)) ltac:(ring).
    apply Qmult_le_compat_nonneg; lra.
Qed.

Lemma Qinv_le_compat (a b : Q) : 0 < a -> a <= b -> / b <= / a.
Proof.
  intros Ha Hab. assert (0 < b) as Hb by lra.
  assert (0 <= / (a * b)).
  { apply Qlt_le_weak, Qinv_lt_0_compat. nra. }
  qreplace (/ b) (a * / (a * b)) ltac:(field; split; by apply Qpos_neq0).
  qreplace (/ a) (b * / (a * b)) ltac:(field; split; by apply Qpos_neq0).
  by apply Qmult_le_compat_r.
Qed.

Lemma near_inv (n : nat) (x X : Q) :
  0 < X -> near n x X -> near n (/ x) (/ X).
Proof.
  intros HX Hx. pose proof (near_pos _ _ _ Hx HX) as Hx0.
  destruct Hx as [H1 H2]. pose proof (slack_pos n) as Hs.
  unfold near. split.
  - qreplace (/ x * slack n) (/ (x / slack n))
      ltac:(field; split; by apply Qpos_neq0).
    apply Qinv_le_compat.
    + apply Qlt_shift_div_l; lra.
    + apply Qle_shift_div_r; lra.
  - qreplace (/ X * slack n) (/ (X / slack n))
      ltac:(field; split; by apply Qpos_neq0).
    apply Qinv_le_compat.
    + apply Qlt_shift_div_l; lra.
    + apply Qle_shift_div_r; lra.
Qed.

Lemma near_div (n m : nat) (x y X Y : Q) :
  0 < X -> 0 < Y -> near n x X -> near m y Y ->
  near (n + m) (x / y) (X / Y).
Proof.
  intros HX HY Hx Hy. apply near_mul; [exact HX| |exact Hx|].
  - by apply Qinv_lt_0_compat.
  - by apply near_inv.
Qed.

Lemma near_error (n : nat) (x X : Q) :
  0 < X -> near n x X -> Qabs (x - X) <= X * (slack n - 1).
Proof.
  intros HX Hx. pose proof (near_pos _ _ _ Hx HX) as Hx0.
  destruct Hx as [H1 H2]. pose proof (slack_ge_1 n) as Hs.
  apply Qabs_Qle_condition. split; [|lra].
  assert (0 <= X * (slack n - 1) * (slack n - 1)) as Hsq.
  { apply Qmult_le_0_compat; [apply Qmult_le_0_compat|]; lra. }
  assert (0 <= slack n * (x - 2 * X + X * slack n)) as Hprod.
  { qreplace (slack n * (x - 2 * X + X * slack n))
      ((x * slack n - X) + X * (slack n - 1) * (slack n - 1)) ltac:(ring).
    lra. }
  destruct (Qlt_le_dec (x - 2 * X + X * slack n) 0) as [Hneg|Hge]; [|lra].
  exfalso. assert (slack n * (x - 2 * X + X * slack n) < 0); [|lra].
  qreplace (slack n * (x - 2 * X + X * slack n))
    (- (slack n * - (x - 2 * X + X * slack n))) ltac:(ring).
  assert (0 < slack n * - (x - 2 * X + X * slack n)); [|lra].
  apply Qmult_lt_0_compat; lra.
Qed.

#[export] Instance near_proper (n : nat) : Proper (Qeq ==> Qeq ==> iff) (near n).
Proof. intros x x' Hx X X' HX. unfold near. by rewrite Hx, HX. Qed.

#[export] Instance in_range_proper (p q : Z) : Proper (Qeq ==> iff) (in_range p q).
Proof. intros x x' Hx. unfold in_range. by rewrite Hx. Qed.

Lemma in_range_pos (p q : Z) (X : Q) : in_range p q X -> 0 < X.
Proof. intros [H _]. pose proof (pow2_pos p). lra. Qed.

Lemma in_range_weaken (p q p' q' : Z) (X : Q) :
  in_range p q X -> (p' <= p)%Z -> (q <= q')%Z -> in_range p' q' X.
Proof.
  intros [H1 H2] Hp Hq. split.
  - eapply Qle_trans; [apply pow2_le, Hp|exact H1].
  - eapply Qle_trans; [exact H2|apply pow2_le, Hq].
Qed.

Lemma in_range_mul (p q p' q' : Z) (X Y : Q) :
  in_range p q X -> in_range p' q' Y -> in_range (p + p') (q + q') (X * Y).
Proof.
  intros [H1 H2] [H3 H4]. unfold in_range. rewrite !pow2_add.
  pose proof (pow2_pos p). pose proof (pow2_pos p').
  split; apply Qmult_le_compat_nonneg; lra.
Qed.

Lemma in_range_inv (p q : Z) (X : Q) :
  in_range p q X -> in_range (- q) (- p) (/ X).
Proof.
  intros HX. pose proof (in_range_pos _ _ _ HX) as H0.
  destruct HX as [H1 H2]. unfold in_range, pow2.
  rewrite !Qpower_opp. fold (pow2 p) (pow2 q).
  pose proof (pow2_pos p).
  split; by apply Qinv_le_compat.
Qed.

Lemma in_range_div (p q p' q' : Z) (X Y : Q) :
  in_range p q X -> in_range p' q' Y -> in_range (p - q') (q - p') (X / Y).
Proof. intros HX HY. apply in_range_mul; [exact HX|]. by apply in_range_inv. Qed.

End Near.

(** ** The error of a product and of a quotient of binary64 numbers *)

Section NearOps.

Import SpecFloat FloatOps FloatAxioms.
Local Open Scope Q_scope.

Lemma pow2_succ (e : Z) : pow2 (e + 1) == 2 * pow2 e.
Proof. rewrite pow2_add. change (pow2 1) with 2. ring. Qed.

Lemma near_range (n : nat) (p q : Z) (x X : Q) :
  (n <= 16)%nat -> 0 < X -> near n x X -> in_range p q X ->
  in_range (p - 1) (q + 1) x.
Proof.
  intros Hn HX Hx [Hp Hq]. pose proof (near_pos _ _ _ Hx HX) as Hx0.
  destruct Hx as [H1 H2]. pose proof (slack_16 n Hn) as Hs.
  pose proof (slack_pos n) as Hs0.
  assert (x * slack n <= x * 2) by (apply Qmult_le_l; lra).
  assert (X * slack n <= X * 2) by (apply Qmult_le_l; lra).
  unfold in_range. rewrite pow2_succ.
  assert (pow2 p == 2 * pow2 (p - 1)) as Ep.
  { rewrite <- pow2_succ. apply Qpower_comp; [reflexivity|lia]. }
  rewrite Ep in Hp. split; lra.
Qed.

Lemma mul_near (n m : nat) (x y : float) (X Y : Q) :
  0 < X -> 0 < Y ->
  near n (fvalue x) X -> near m (fvalue y) Y ->
  (n + m <= 16)%nat ->
  in_range (-999) 999 (X * Y) ->
  near (S (n + m)) (fvalue (x * y)) (X * Y).
Proof.
  intros HX HY Hx Hy Hnm Hr.
  pose proof (near_pos _ _ _ Hx HX) as Hx0.
  pose proof (near_pos _ _ _ Hy HY) as Hy0.
  pose proof (near_mul _ _ _ _ _ _ HX HY Hx Hy) as Hxy.
  assert (0 < X * Y) as HXY by (by apply Qmult_lt_0_compat).
  pose proof (near_range _ _ _ _ _ Hnm HXY Hxy Hr) as Hr'.
  apply (near_trans 1 (n + m) _ (fvalue x * fvalue y)); [|exact Hxy].
  apply near_round; [by apply Qmult_lt_0_compat|].
  apply mul_value; [exact Hx0|exact Hy0|exact Hr'].
Qed.

Lemma div_near (n m : nat) (x y : float) (X Y : Q) :
  0 < X -> 0 < Y ->
  near n (fvalue x) X -> near m (fvalue y) Y ->
  (n + m <= 16)%nat ->
  in_range (-999) 999 (X / Y) ->
  near (S (n + m)) (fvalue (x / y)) (X / Y).
Proof.
  intros HX HY Hx Hy Hnm Hr.
  pose proof (near_pos _ _ _ Hx HX) as Hx0.
  pose proof (near_pos _ _ _ Hy HY) as Hy0.
  pose proof (near_div _ _ _ _ _ _ HX HY Hx Hy) as Hxy.
  assert (0 < X / Y) as HXY.
  { apply Qmult_lt_0_compat; [exact HX|by apply Qinv_lt_0_compat]. }
  pose proof (near_range _ _ _ _ _ Hnm HXY Hxy Hr) as Hr'.
  apply (near_trans 1 (n + m) _ (fvalue x / fvalue y)); [|exact Hxy].
  apply near_round.
  - apply Qmult_lt_0_compat; [exact Hx0|by apply Qinv_lt_0_compat].
  - apply div_value; [exact Hx0|exact Hy0|exact Hr'].
Qed.

(** The order of binary64 on finite positive numbers is the order of
    their values. *)
Lemma ltb_of_value (x y : float) :
  0 < fvalue x -> fvalue x < fvalue y -> PrimFloat.ltb x y = true.
Proof.
  intros Hx Hxy. assert (0 < fvalue y) as Hy by lra.
  destruct (fvalue_pos_inv x Hx) as (mx & ex & Ex).
  destruct (fvalue_pos_inv y Hy) as (my & ey & Ey).
  destruct (Prim2SF_finite_valid _ _ _ _ Ex) as (Hex & Hdx & Hcx).
  destruct (Prim2SF_finite_valid _ _ _ _ Ey) as (Hey & Hdy & Hcy).
  rewrite (fvalue_finite x mx ex Ex), (fvalue_finite y my ey Ey) in Hxy.
  rewrite ltb_spec, Ex, Ey. unfold SFltb, SFcompare.
  pose proof (pow2_pos ex) as HP. pose proof (pow2_pos ey) as HR.
  destruct (Z.compare_spec ex ey) as [->|Hlt|Hgt]; [|reflexivity|].
  - assert (Zpos mx < Zpos my)%Z as Hm.
    { rewrite Zlt_Qlt. eapply Qmult_lt_r; [exact HR|exact Hxy]. }
    change (PosDef.Pos.compare_cont Eq mx my) with (Pos.compare mx my).
    by rewrite (proj2 (Pos.compare_lt_iff mx my) Hm).
  - exfalso. apply (Qlt_irrefl (inject_Z (Zpos mx) * pow2 ex)).
    eapply Qlt_le_trans; [exact Hxy|].
    pose proof (Zdigits2_bounds (Zpos mx)) as [H1 _]; [lia|].
    pose proof (Zdigits2_bounds (Zpos my)) as [_ H2]; [lia|].
    apply Qle_trans with (pow2 53 * pow2 ey).
    + apply Qmult_le_compat_r; [|lra].
      rewrite pow2_Z by lia. rewrite <- Zle_Qle.
      transitivity (2 ^ Zdigits2 (Zpos my))%Z; [lia|].
      apply Z.pow_le_mono_r; lia.
    + apply Qle_trans with (pow2 52 * pow2 ex).
      * rewrite <- !pow2_add. apply pow2_le. lia.
      * apply Qmult_le_compat_r; [|lra].
        rewrite pow2_Z by lia. rewrite <- Zle_Qle.
        destruct Hcx as [Hcx|]; [|lia]. rewrite Hcx in H1. exact H1.
Qed.

End NearOps.

(** * The program in binary64, up to rounding *)

(** A comparison of two rationals, by evaluation. *)
Ltac qle := apply Qle_bool_iff; vm_compute; reflexivity.

(** The element of a range at a position. *)
Lemma py_range_lookup (start stop step : Z) (i : nat) (x : Z) :
  py_range start stop step !! i = Some x ->
  x = (start + Z.of_nat i * step)%Z.
Proof.
  unfold py_range. rewrite list_lookup_fmap. intros Hx.
  destruct (seq 0 (Z.to_nat ((stop - start + step - 1) / step)) !! i)
    as [n|] eqn:En; [|discriminate].
  apply lookup_seq in En as [-> _]. simpl in Hx. congruence.
Qed.

Section Rounded.

Local Open Scope Q_scope.

Lemma ladder_value (r : Z) :
  r ∈ py_range 100 1001 100 ->
  fvalue (of_int r) == inject_Z r /\ in_range 6 10 (inject_Z r).
Proof.
  rewrite range_values_ladder. intros Hr.
  repeat (apply elem_of_cons in Hr as [->|Hr]);
    try (split; [vm_compute; reflexivity|split; qle]).
  by apply elem_of_nil in Hr.
Qed.

Lemma hundred_value :
  fvalue (of_int 100) == 100 /\ in_range 6 7 100.
Proof. split; [vm_compute; reflexivity|split; qle]. Qed.

Lemma gallons_value :
  near 1 (fvalue GALLONS_PER_M3) (264172 # 1000) /\
  in_range 8 9 (264172 # 1000).
Proof. split; split; qle. Qed.


Lemma near_eq (n m : nat) (x X : Q) : n = m -> near n x X -> near m x X.
Proof. by intros ->. Qed.

(** [range / constant], for a range of the ladder. *)
Lemma quotient_near (k : float) (r pk qk : Z) :
  r ∈ py_range 100 1001 100 ->
  in_range pk qk (fvalue k) ->
  (-999 <= 6 - qk)%Z -> (10 - pk <= 999)%Z ->
  near 1 (fvalue (of_int r / k)) (inject_Z r / fvalue k) /\
  in_range (6 - qk) (10 - pk) (inject_Z r / fvalue k).
Proof.
  intros Hr Hk H1 H2.
  destruct (ladder_value r Hr) as [Er Hrr].
  pose proof (in_range_div _ _ _ _ _ _ Hrr Hk) as Hq.
  split; [|exact Hq].
  apply (div_near 0 0).
  - exact (in_range_pos _ _ _ Hrr).
  - exact (in_range_pos _ _ _ Hk).
  - rewrite Er. apply near_refl.
  - apply near_refl.
  - lia.
  - apply (in_range_weaken _ _ _ _ _ Hq); lia.
Qed.

(** [(x / capacity) * 100] *)
Lemma percentage_near (x g : float) (X : Q) (n : nat) (p q pg qg : Z) :
  near n (fvalue x) X -> in_range p q X -> in_range pg qg (fvalue g) ->
  (n <= 14)%nat -> (-999 <= p - qg)%Z -> (q - pg + 7 <= 999)%Z ->
  near (S (S n)) (fvalue (x / g * of_int 100)) (X / fvalue g * 100) /\
  in_range (p - qg + 6) (q - pg + 7) (X / fvalue g * 100).
Proof.
  intros Hx HX Hg Hn H1 H2.
  destruct hundred_value as [E100 H100].
  pose proof (in_range_div _ _ _ _ _ _ HX Hg) as Hq.
  pose proof (in_range_mul _ _ _ _ _ _ Hq H100) as Hm.
  split; [|exact Hm].
  assert (near (S n) (fvalue (x / g)) (X / fvalue g)) as Hdiv.
  { apply (near_eq (S (n + 0))); [lia|]. apply div_near.
    - exact (in_range_pos _ _ _ HX).
    - exact (in_range_pos _ _ _ Hg).
    - exact Hx.
    - apply near_refl.
    - lia.
    - apply (in_range_weaken _ _ _ _ _ Hq); lia. }
  apply (near_eq (S (S n + 0))); [lia|]. apply mul_near.
  - exact (in_range_pos _ _ _ Hq).
  - reflexivity.
  - exact Hdiv.
  - rewrite E100. apply near_refl.
  - lia.
  - apply (in_range_weaken _ _ _ _ _ Hm); lia.
Qed.

(** The mileage model on numbers between 2^-160 and 2^160. *)
Lemma calculate_miles_per_fuel_near (mp eF mF eD mD : float) :
  in_range (-160) 160 (fvalue mp) ->
  in_range (-160) 160 (fvalue eF) ->
  in_range (-160) 160 (fvalue mF) ->
  in_range (-160) 160 (fvalue eD) ->
  in_range (-160) 160 (fvalue mD) ->
  near 2 (fvalue (mD / GALLONS_PER_M3)) (fvalue mD / (264172 # 1000)) /\
  in_range (-169) 152 (fvalue mD / (264172 # 1000)) /\
  near 5 (fvalue (fst (calculate_miles_per_fuel mp eF mF eD mD)))
         (fvalue mp / (fvalue mD / (264172 # 1000)) * fvalue eF / fvalue eD) /\
  in_range (-632) 649
    (fvalue mp / (fvalue mD / (264172 # 1000)) * fvalue eF / fvalue eD) /\
  near 6 (fvalue (snd (calculate_miles_per_fuel mp eF mF eD mD)))
         (fvalue mp / (fvalue mD / (264172 # 1000)) * fvalue eF / fvalue eD
          * fvalue mF) /\
  in_range (-792) 809
    (fvalue mp / (fvalue mD / (264172 # 1000)) * fvalue eF / fvalue eD
     * fvalue mF).
Proof.
  intros Hmp HeF HmF HeD HmD.
  destruct gallons_value as [HG HGr].
  pose proof (in_range_div _ _ _ _ _ _ HmD HGr) as R1.
  pose proof (in_range_div _ _ _ _ _ _ Hmp R1) as R2.
  pose proof (in_range_mul _ _ _ _ _ _ R2 HeF) as R3.
  pose proof (in_range_div _ _ _ _ _ _ R3 HeD) as R4.
  pose proof (in_range_mul _ _ _ _ _ _ R4 HmF) as R5.
  assert (near 2 (fvalue (mD / GALLONS_PER_M3))
            (fvalue mD / (264172 # 1000))) as N1.
  { apply (div_near 0 1).
    - exact (in_range_pos _ _ _ HmD).
    - reflexivity.
    - apply near_refl.
    - exact HG.
    - lia.
    - apply (in_range_weaken _ _ _ _ _ R1); lia. }
  assert (near 3 (fvalue (mp / (mD / GALLONS_PER_M3)))
            (fvalue mp / (fvalue mD / (264172 # 1000)))) as N2.
  { apply (div_near 0 2).
    - exact (in_range_pos _ _ _ Hmp).
    - exact (in_range_pos _ _ _ R1).
    - apply near_refl.
    - exact N1.
    - lia.
    - apply (in_range_weaken _ _ _ _ _ R2); lia. }
  assert (near 4 (fvalue (mp / (mD / GALLONS_PER_M3) * eF))
            (fvalue mp / (fvalue mD / (264172 # 1000)) * fvalue eF)) as N3.
  { apply (mul_near 3 0).
    - exact (in_range_pos _ _ _ R2).
    - exact (in_range_pos _ _ _ HeF).
    - exact N2.
    - apply near_refl.
    - lia.
    - apply (in_range_weaken _ _ _ _ _ R3); lia. }
  assert (near 5 (fvalue (mp / (mD / GALLONS_PER_M3) * eF / eD))
            (fvalue mp / (fvalue mD / (264172 # 1000)) * fvalue eF
             / fvalue eD)) as N4.
  { apply (div_near 4 0).
    - exact (in_range_pos _ _ _ R3).
    - exact (in_range_pos _ _ _ HeD).
    - exact N3.
    - apply near_refl.
    - lia.
    - apply (in_range_weaken _ _ _ _ _ R4); lia. }
  assert (near 6 (fvalue (mp / (mD / GALLONS_PER_M3) * eF / eD * mF))
            (fvalue mp / (fvalue mD / (264172 # 1000)) * fvalue eF
             / fvalue eD * fvalue mF)) as N5.
  { apply (mul_near 5 0).
    - exact (in_range_pos _ _ _ R4).
    - exact (in_range_pos _ _ _ HmF).
    - exact N4.
    - apply near_refl.
    - lia.
    - apply (in_range_weaken _ _ _ _ _ R5); lia. }
  split; [exact N1|]. split; [apply (in_range_weaken _ _ _ _ _ R1); lia|].
  split; [exact N4|]. split; [apply (in_range_weaken _ _ _ _ _ R4); lia|].
  split; [exact N5|]. apply (in_range_weaken _ _ _ _ _ R5); lia.
Qed.

Lemma finite_positive_of_value (x : float) :
  0 < fvalue x -> finite_positive x = true.
Proof.
  intros Hx. destruct (fvalue_pos_inv x Hx) as (m & e & Ex).
  unfold finite_positive. rewrite !FloatAxioms.ltb_spec, Ex. reflexivity.
Qed.


(** [finite_positive], which the program's own comparisons decide, says
    that the value is positive. *)
Lemma finite_positive_value (x : float) :
  finite_positive x = true <-> 0 < fvalue x.
Proof.
  split; [|apply finite_positive_of_value].
  unfold finite_positive, fvalue. rewrite !FloatAxioms.ltb_spec.
  change (FloatOps.Prim2SF 0) with (SpecFloat.S754_zero false).
  change (FloatOps.Prim2SF infinity) with (SpecFloat.S754_infinity false).
  destruct (FloatOps.Prim2SF x) as [s|s| |s m e]; try destruct s; simpl;
    try discriminate.
  intros _. apply Qmult_lt_0_compat; [reflexivity|apply pow2_pos].
Qed.

End Rounded.

(** * The claims about rounding, in binary64 *)

Section RoundedClaims.

Local Open Scope Q_scope.

Implicit Types (w : World float) (row : Row float).

Lemma near_tolerance (n : nat) (e : Z) (x X : Q) :
  0 < X -> near n x X -> slack n - 1 <= pow2 e ->
  Qabs (x - X) <= X * pow2 e.
Proof.
  intros HX Hx Hs. eapply Qle_trans; [by apply near_error|].
  apply Qmult_le_l; [exact HX|exact Hs].
Qed.

Lemma round_trip_near (k : float) (r : Z) :
  r ∈ py_range 100 1001 100 ->
  in_range (-980) 980 (fvalue k) ->
  Qabs (fvalue (of_int r / k * k) - inject_Z r) <= inject_Z r * pow2 (-51).
Proof.
  intros Hr Hk.
  destruct (ladder_value r Hr) as [_ Hrr].
  destruct (quotient_near k r (-980) 980 Hr Hk) as [Hq Hqr]; [lia..|].
  pose proof (in_range_pos _ _ _ Hk) as Hk0.
  assert (inject_Z r / fvalue k * fvalue k == inject_Z r) as E.
  { field. by apply Qpos_neq0. }
  assert (near 2 (fvalue (of_int r / k * k)) (inject_Z r)) as Hn.
  { rewrite <- E. apply (mul_near 1 0).
    - exact (in_range_pos _ _ _ Hqr).
    - exact Hk0.
    - exact Hq.
    - apply near_refl.
    - lia.
    - rewrite E. apply (in_range_weaken _ _ _ _ _ Hrr); lia. }
  apply (near_tolerance 2); [exact (in_range_pos _ _ _ Hrr)|exact Hn|qle].
Qed.

(** C2, in binary64. In every row of a fuel's table the fuel mass times
    the fuel's miles-per-kg, and the fuel volume times its miles-per-m3,
    are the row's target range up to a relative error of 2^-51 (about
    4.4e-16), for mileage constants between 2^-980 and 2^980. *)
Theorem round_trip_binary64 (tif tff fif : frame) w
    (m : gmap string (list (Row float))) fuel table row (k v : float) :
  fst (create_range_vs_fuel_ratio_dfs tif tff fif w) = Ok m ->
  m !! fuel = Some table ->
  row ∈ table ->
  miles_per_fuel_of (heap w tff) (heap w fif) fuel = Ok (k, v) ->
  in_range (-980) 980 (fvalue k) ->
  in_range (-980) 980 (fvalue v) ->
  Qabs (fvalue (fuel_mass row * k) - inject_Z (truck_range row))
  <= inject_Z (truck_range row) * pow2 (-51) /\
  Qabs (fvalue (fuel_volume row * v) - inject_Z (truck_range row))
  <= inject_Z (truck_range row) * pow2 (-51).
Proof.
  intros Hrun Hm Hrow Hkv Hk Hv.
  destruct (create_table _ _ _ _ _ _ _ Hrun Hm)
    as (g & d & k' & v' & _ & _ & Hkv' & _ & ->).
  assert (k' = k /\ v' = v) as [-> ->] by (split; congruence).
  apply list_elem_of_fmap in Hrow as (r & -> & Hr). simpl.
  split; by apply round_trip_near.
Qed.

(** C6, in binary64. With the fuel's densities equal to diesel's,
    [calculate_miles_per_fuel] returns efficiencyRating * 264.172 /
    massDensityDiesel and efficiencyRating * 264.172 up to a relative
    error of 2^-50 (about 8.9e-16), for a rating and densities between
    2^-160 and 2^160. *)
Theorem self_reference_binary64 (mpgde e d : float) :
  in_range (-160) 160 (fvalue mpgde) ->
  in_range (-160) 160 (fvalue e) ->
  in_range (-160) 160 (fvalue d) ->
  Qabs (fvalue (fst (calculate_miles_per_fuel mpgde e d e d))
        - fvalue mpgde * (264172 # 1000) / fvalue d)
  <= fvalue mpgde * (264172 # 1000) / fvalue d * pow2 (-50) /\
  Qabs (fvalue (snd (calculate_miles_per_fuel mpgde e d e d))
        - fvalue mpgde * (264172 # 1000))
  <= fvalue mpgde * (264172 # 1000) * pow2 (-50).
Proof.
  intros Hm He Hd.
  destruct (calculate_miles_per_fuel_near mpgde e d e d Hm He Hd He Hd)
    as (_ & _ & Nk & Rk & Nv & Rv).
  pose proof (in_range_pos _ _ _ Hm). pose proof (in_range_pos _ _ _ He).
  pose proof (in_range_pos _ _ _ Hd).
  assert (fvalue mpgde / (fvalue d / (264172 # 1000)) * fvalue e / fvalue e
          == fvalue mpgde * (264172 # 1000) / fvalue d) as Ek.
  { field. repeat split; try by apply Qpos_neq0. }
  assert (fvalue mpgde / (fvalue d / (264172 # 1000)) * fvalue e / fvalue e
          * fvalue d
          == fvalue mpgde * (264172 # 1000)) as Ev.
  { field. repeat split; try by apply Qpos_neq0. }
  rewrite Ek in Nk, Rk. rewrite Ev in Nv, Rv.
  split.
  - apply (near_tolerance 5); [exact (in_range_pos _ _ _ Rk)|exact Nk|qle].
  - apply (near_tolerance 6); [exact (in_range_pos _ _ _ Rv)|exact Nv|qle].
Qed.


Lemma finite_positive_in_range (p q : Z) (x : float) :
  in_range p q (fvalue x) -> finite_positive x = true.
Proof. intros Hx. apply finite_positive_of_value. by eapply in_range_pos. Qed.

Lemma finite_positive_near (n : nat) (p q : Z) (x : float) (X : Q) :
  near n (fvalue x) X -> in_range p q X -> finite_positive x = true.
Proof.
  intros Hx HX. apply finite_positive_of_value.
  eapply near_pos; [exact Hx|]. by eapply in_range_pos.
Qed.

(** The entries of a row, for a range of the ladder. *)
Lemma range_row_near (k v g d : float) (r pk qk pg qg : Z) :
  r ∈ py_range 100 1001 100 ->
  in_range pk qk (fvalue k) -> in_range pk qk (fvalue v) ->
  in_range pg qg (fvalue g) -> in_range pg qg (fvalue d) ->
  (-999 <= 6 - qk - qg)%Z -> (17 - pk - pg <= 999)%Z ->
  (-999 <= 6 - qk)%Z -> (10 - pk <= 999)%Z ->
  let row := range_row k v g d r in
  near 1 (fvalue (fuel_mass row)) (inject_Z r / fvalue k) /\
  near 3 (fvalue (fuel_mass_percentage row))
         (inject_Z r / fvalue k / fvalue g * 100) /\
  near 1 (fvalue (fuel_volume row)) (inject_Z r / fvalue v) /\
  near 3 (fvalue (fuel_volume_percentage row))
         (inject_Z r / fvalue v / fvalue d * 100).
Proof.
  intros Hr Hk Hv Hg Hd H1 H2 H3 H4. simpl.
  destruct (quotient_near k r pk qk Hr Hk H3 H4) as [Nk Rk].
  destruct (quotient_near v r pk qk Hr Hv H3 H4) as [Nv Rv].
  destruct (percentage_near _ g _ 1 _ _ _ _ Nk Rk Hg) as [Pk _]; [lia..|].
  destruct (percentage_near _ d _ 1 _ _ _ _ Nv Rv Hd) as [Pv _]; [lia..|].
  done.
Qed.

Lemma range_row_positive (k v g d : float) (r pk qk pg qg : Z) :
  r ∈ py_range 100 1001 100 ->
  in_range pk qk (fvalue k) -> in_range pk qk (fvalue v) ->
  in_range pg qg (fvalue g) -> in_range pg qg (fvalue d) ->
  (-999 <= 6 - qk - qg)%Z -> (17 - pk - pg <= 999)%Z ->
  (-999 <= 6 - qk)%Z -> (10 - pk <= 999)%Z ->
  let row := range_row k v g d r in
  0 < fvalue (fuel_mass row) /\ 0 < fvalue (fuel_mass_percentage row) /\
  0 < fvalue (fuel_volume row) /\ 0 < fvalue (fuel_volume_percentage row).
Proof.
  intros Hr Hk Hv Hg Hd H1 H2 H3 H4 row.
  destruct (range_row_near k v g d r pk qk pg qg) as (N1 & N2 & N3 & N4);
    [assumption..|].
  destruct (ladder_value r Hr) as [_ Hrr].
  pose proof (in_range_pos _ _ _ Hrr) as Hr0.
  pose proof (in_range_pos _ _ _ Hk) as Hk0.
  pose proof (in_range_pos _ _ _ Hv) as Hv0.
  pose proof (in_range_pos _ _ _ Hg) as Hg0.
  pose proof (in_range_pos _ _ _ Hd) as Hd0.
  assert (forall a b, 0 < a -> 0 < b -> 0 < a / b) as Hdiv.
  { intros a b Ha Hb. apply Qmult_lt_0_compat; [exact Ha|].
    by apply Qinv_lt_0_compat. }
  repeat split.
  - eapply near_pos; [exact N1|]. by apply Hdiv.
  - eapply near_pos; [exact N2|].
    apply Qmult_lt_0_compat; [|reflexivity]. apply Hdiv; [|done].
    by apply Hdiv.
  - eapply near_pos; [exact N3|]. by apply Hdiv.
  - eapply near_pos; [exact N4|].
    apply Qmult_lt_0_compat; [|reflexivity]. apply Hdiv; [|done].
    by apply Hdiv.
Qed.

(** C9, in binary64. When every efficiency rating, energy density, mass
    density and the two truck capacities lie between 2^-160 and 2^160
    (about 6.8e-49 and 1.5e48), the divisor of each of the seven
    divisions of a fuel of the returned mapping is a finite positive
    number, hence not zero, and so are the four derived entries of every
    row of its table. *)
Theorem divisors_positive_binary64 (tif tff fif : frame) w
    (m : gmap string (list (Row float))) fuel table :
  fst (create_range_vs_fuel_ratio_dfs tif tff fif w) = Ok m ->
  m !! fuel = Some table ->
  (forall f x, df_loc (heap w tff) f "MPGDE" = Ok x ->
               in_range (-160) 160 (fvalue x)) ->
  (forall f x, df_loc (heap w fif) f "Energy Density (MJ / kg)" = Ok x ->
               in_range (-160) 160 (fvalue x)) ->
  (forall f x, df_loc (heap w fif) f "Mass Density (kg / m^3)" = Ok x ->
               in_range (-160) 160 (fvalue x)) ->
  (forall x, df_loc (heap w tif) "Max Gross Vehicle Weight (kg)" "Value" = Ok x ->
             in_range (-160) 160 (fvalue x)) ->
  (forall x, df_loc (heap w tif) "Dry Van Volume (m^3)" "Value" = Ok x ->
             in_range (-160) 160 (fvalue x)) ->
  exists mpgde_fuel energy_density_fuel mass_density_fuel
         energy_density_diesel mass_density_diesel max_gvw dry_van_volume
         miles_per_kg_fuel miles_per_m3_fuel,
    df_loc (heap w tff) fuel "MPGDE" = Ok mpgde_fuel /\
    df_loc (heap w fif) fuel "Energy Density (MJ / kg)"
    = Ok energy_density_fuel /\
    df_loc (heap w fif) fuel "Mass Density (kg / m^3)"
    = Ok mass_density_fuel /\
    df_loc (heap w fif) "Diesel" "Energy Density (MJ / kg)"
    = Ok energy_density_diesel /\
    df_loc (heap w fif) "Diesel" "Mass Density (kg / m^3)"
    = Ok mass_density_diesel /\
    df_loc (heap w tif) "Max Gross Vehicle Weight (kg)" "Value" = Ok max_gvw /\
    df_loc (heap w tif) "Dry Van Volume (m^3)" "Value" = Ok dry_van_volume /\
    calculate_miles_per_fuel mpgde_fuel energy_density_fuel mass_density_fuel
      energy_density_diesel mass_density_diesel
    = (miles_per_kg_fuel, miles_per_m3_fuel) /\
    Forall (fun divisor => finite_positive divisor = true)
      [GALLONS_PER_M3;
       (mass_density_diesel / GALLONS_PER_M3)%float;
       energy_density_diesel;
       miles_per_kg_fuel;
       miles_per_m3_fuel;
       max_gvw;
       dry_van_volume] /\
    Forall (fun row =>
              finite_positive (fuel_mass row) = true /\
              finite_positive (fuel_mass_percentage row) = true /\
              finite_positive (fuel_volume row) = true /\
              finite_positive (fuel_volume_percentage row) = true)
      table.
Proof.
  intros Hrun Hm Hmpgde Henergy Hmass Hgvw Hdry.
  destruct (create_table _ _ _ _ _ _ _ Hrun Hm)
    as (g & d & k & v & Hg & Hd & Hkv & _ & ->).
  unfold miles_per_fuel_of in Hkv.
  destruct (df_loc (heap w tff) fuel "MPGDE") as [mp|] eqn:Emp;
    [|discriminate].
  destruct (df_loc (heap w fif) fuel "Energy Density (MJ / kg)")
    as [eF|] eqn:EeF; [|discriminate].
  destruct (df_loc (heap w fif) fuel "Mass Density (kg / m^3)")
    as [mF|] eqn:EmF; [|discriminate].
  destruct (df_loc (heap w fif) "Diesel" "Energy Density (MJ / kg)")
    as [eD|] eqn:EeD; [|discriminate].
  destruct (df_loc (heap w fif) "Diesel" "Mass Density (kg / m^3)")
    as [mD|] eqn:EmD; [|discriminate].
  assert (calculate_miles_per_fuel mp eF mF eD mD = (k, v)) as Hkv'
    by congruence.
  clear Hkv. rename Hkv' into Hkv.
  exists mp, eF, mF, eD, mD, g, d, k, v.
  do 7 (split; [reflexivity || assumption|]). split; [exact Hkv|].
  apply Hmpgde in Emp. apply Henergy in EeF, EeD. apply Hmass in EmF, EmD.
  apply Hgvw in Hg. apply Hdry in Hd.
  destruct (calculate_miles_per_fuel_near mp eF mF eD mD Emp EeF EmF EeD EmD)
    as (N1 & R1 & Nk & Rk & Nv & Rv).
  rewrite Hkv in Nk, Nv. simpl in Nk, Nv.
  pose proof (near_range 5 _ _ _ _ ltac:(lia) (in_range_pos _ _ _ Rk) Nk Rk)
    as Rk'.
  pose proof (near_range 6 _ _ _ _ ltac:(lia) (in_range_pos _ _ _ Rv) Nv Rv)
    as Rv'.
  split.
  - repeat apply Forall_cons_2; [| | | | | | |apply Forall_nil_2].
    + reflexivity.
    + by eapply finite_positive_near.
    + by eapply finite_positive_in_range.
    + by eapply finite_positive_in_range.
    + by eapply finite_positive_in_range.
    + by eapply finite_positive_in_range.
    + by eapply finite_positive_in_range.
  - apply Forall_fmap, Forall_forall. intros r Hr.
    assert (in_range (-793) 810 (fvalue k)) as Rk''
      by (apply (in_range_weaken _ _ _ _ _ Rk'); lia).
    assert (in_range (-793) 810 (fvalue v)) as Rv''
      by (apply (in_range_weaken _ _ _ _ _ Rv'); lia).
    destruct (range_row_positive k v g d r (-793) 810 (-160) 160
                Hr Rk'' Rv'' Hg Hd) as (P1 & P2 & P3 & P4); [lia..|].
    repeat split; by apply finite_positive_of_value.
Qed.


Lemma ladder_gap (i j : nat) (x1 x2 : Z) :
  py_range 100 1001 100 !! i = Some x1 ->
  py_range 100 1001 100 !! j = Some x2 ->
  (i < j)%nat ->
  inject_Z x1 * (10 # 9) <= inject_Z x2.
Proof.
  intros H1 H2 Hij.
  pose proof (lookup_lt_Some _ _ _ H2) as Hj.
  rewrite range_values_ladder in Hj. simpl in Hj.
  apply py_range_lookup in H1, H2. subst x1 x2.
  unfold Qle, Qmult, inject_Z. simpl. lia.
Qed.

Lemma near_lt (n : nat) (x1 x2 X1 X2 : Q) :
  (n <= 3)%nat -> 0 < X1 ->
  near n x1 X1 -> near n x2 X2 ->
  X1 * (10 # 9) <= X2 ->
  x1 < x2.
Proof.
  intros Hn HX1 [_ H1] [H2 _] Hgap.
  pose proof (slack_pos n) as Hs. pose proof (slack_mono n 3 Hn) as Hs3.
  assert (slack 3 * slack 3 < 10 # 9) as Hc by reflexivity.
  destruct (Qlt_le_dec x1 x2) as [|Hle]; [done|]. exfalso.
  assert (x2 * slack n <= x1 * slack n) as A1
    by (apply Qmult_le_compat_r; lra).
  assert (x1 * slack n <= X1 * slack n * slack n) as A2
    by (apply Qmult_le_compat_r; lra).
  assert (slack n * slack n <= slack 3 * slack 3) as A3
    by (apply Qmult_le_compat_nonneg; lra).
  assert (X1 * (slack n * slack n) <= X1 * (slack 3 * slack 3)) as A4
    by (apply Qmult_le_l; assumption).
  assert (X1 * (slack 3 * slack 3) < X1 * (10 # 9)) as A5
    by (apply Qmult_lt_l; assumption).
  lra.
Qed.

(** Two rows of the ladder under the same constants: every entry of the
    upper row is below the entry of the lower row. *)
Lemma range_row_increasing_rounded (k v g d : float) (i j : nat) (x1 x2 : Z) :
  py_range 100 1001 100 !! i = Some x1 ->
  py_range 100 1001 100 !! j = Some x2 ->
  (i < j)%nat ->
  in_range (-490) 490 (fvalue k) -> in_range (-490) 490 (fvalue v) ->
  in_range (-490) 490 (fvalue g) -> in_range (-490) 490 (fvalue d) ->
  PrimFloat.ltb (fuel_mass (range_row k v g d x1))
                (fuel_mass (range_row k v g d x2)) = true /\
  PrimFloat.ltb (fuel_mass_percentage (range_row k v g d x1))
                (fuel_mass_percentage (range_row k v g d x2)) = true /\
  PrimFloat.ltb (fuel_volume (range_row k v g d x1))
                (fuel_volume (range_row k v g d x2)) = true /\
  PrimFloat.ltb (fuel_volume_percentage (range_row k v g d x1))
                (fuel_volume_percentage (range_row k v g d x2)) = true.
Proof.
  intros H1 H2 Hij Hk Hv Hg Hd.
  pose proof (ladder_gap i j x1 x2 H1 H2 Hij) as Hgap.
  pose proof (list_elem_of_lookup_2 _ _ _ H1) as Hx1.
  pose proof (list_elem_of_lookup_2 _ _ _ H2) as Hx2.
  destruct (range_row_near k v g d x1 (-490) 490 (-490) 490)
    as (A1 & A2 & A3 & A4); [assumption || lia..|].
  destruct (range_row_near k v g d x2 (-490) 490 (-490) 490)
    as (B1 & B2 & B3 & B4); [assumption || lia..|].
  destruct (range_row_positive k v g d x1 (-490) 490 (-490) 490)
    as (P1 & P2 & P3 & P4); [assumption || lia..|].
  destruct (ladder_value x1 Hx1) as [_ Hr1].
  pose proof (in_range_pos _ _ _ Hr1) as Hr0.
  pose proof (in_range_pos _ _ _ Hk) as Hk0.
  pose proof (in_range_pos _ _ _ Hv) as Hv0.
  pose proof (in_range_pos _ _ _ Hg) as Hg0.
  pose proof (in_range_pos _ _ _ Hd) as Hd0.
  assert (forall a b, 0 < a -> 0 < b -> 0 < a / b) as Hdiv.
  { intros a b Ha Hb. apply Qmult_lt_0_compat; [exact Ha|].
    by apply Qinv_lt_0_compat. }
  assert (forall c, 0 < c ->
            inject_Z x1 * c * (10 # 9) <= inject_Z x2 * c) as Hscale.
  { intros c Hc.
    qreplace (inject_Z x1 * c * (10 # 9)) (inject_Z x1 * (10 # 9) * c)
      ltac:(ring).
    apply Qmult_le_compat_r; lra. }
  assert (0 < inject_Z x1 / fvalue k / fvalue g * 100) as Q2.
  { apply Qmult_lt_0_compat; [|reflexivity]. apply Hdiv; [|done].
    by apply Hdiv. }
  assert (0 < inject_Z x1 / fvalue v / fvalue d * 100) as Q4.
  { apply Qmult_lt_0_compat; [|reflexivity]. apply Hdiv; [|done].
    by apply Hdiv. }
  repeat split; apply ltb_of_value; try assumption.
  - apply (near_lt 1 _ _ _ _ ltac:(lia) (Hdiv _ _ Hr0 Hk0) A1 B1).
    apply Hscale. by apply Qinv_lt_0_compat.
  - apply (near_lt 3 _ _ _ _ ltac:(lia) Q2 A2 B2).
    qreplace (inject_Z x1 / fvalue k / fvalue g * 100)
      (inject_Z x1 * (/ fvalue k * / fvalue g * 100)) ltac:(unfold Qdiv; ring).
    qreplace (inject_Z x2 / fvalue k / fvalue g * 100)
      (inject_Z x2 * (/ fvalue k * / fvalue g * 100)) ltac:(unfold Qdiv; ring).
    apply Hscale. apply Qmult_lt_0_compat; [|reflexivity].
    apply Qmult_lt_0_compat; by apply Qinv_lt_0_compat.
  - apply (near_lt 1 _ _ _ _ ltac:(lia) (Hdiv _ _ Hr0 Hv0) A3 B3).
    apply Hscale. by apply Qinv_lt_0_compat.
  - apply (near_lt 3 _ _ _ _ ltac:(lia) Q4 A4 B4).
    qreplace (inject_Z x1 / fvalue v / fvalue d * 100)
      (inject_Z x1 * (/ fvalue v * / fvalue d * 100)) ltac:(unfold Qdiv; ring).
    qreplace (inject_Z x2 / fvalue v / fvalue d * 100)
      (inject_Z x2 * (/ fvalue v * / fvalue d * 100)) ltac:(unfold Qdiv; ring).
    apply Hscale. apply Qmult_lt_0_compat; [|reflexivity].
    apply Qmult_lt_0_compat; by apply Qinv_lt_0_compat.
Qed.

(** C10, in binary64. For a fuel whose mileage constants, and a truck
    whose capacities, lie between 2^-490 and 2^490 (about 3.1e-148 and
    3.2e147), the fuel mass, the mass percentage, the fuel volume and
    the volume percentage of a row are strictly below those of every
    row further down the fuel's table, in the order of binary64. *)
Theorem columns_increase_binary64 (tif tff fif : frame) w
    (m : gmap string (list (Row float))) fuel (table : list (Row float))
    (k v max_gvw dry_van_volume : float) (i j : nat) (r1 r2 : Row float) :
  fst (create_range_vs_fuel_ratio_dfs tif tff fif w) = Ok m ->
  m !! fuel = Some table ->
  miles_per_fuel_of (heap w tff) (heap w fif) fuel = Ok (k, v) ->
  df_loc (heap w tif) "Max Gross Vehicle Weight (kg)" "Value" = Ok max_gvw ->
  df_loc (heap w tif) "Dry Van Volume (m^3)" "Value" = Ok dry_van_volume ->
  in_range (-490) 490 (fvalue k) ->
  in_range (-490) 490 (fvalue v) ->
  in_range (-490) 490 (fvalue max_gvw) ->
  in_range (-490) 490 (fvalue dry_van_volume) ->
  table !! i = Some r1 ->
  table !! j = Some r2 ->
  (i < j)%nat ->
  PrimFloat.ltb (fuel_mass r1) (fuel_mass r2) = true /\
  PrimFloat.ltb (fuel_mass_percentage r1) (fuel_mass_percentage r2) = true /\
  PrimFloat.ltb (fuel_volume r1) (fuel_volume r2) = true /\
  PrimFloat.ltb (fuel_volume_percentage r1) (fuel_volume_percentage r2) = true.
Proof.
  intros Hrun Hm Hkv Hg Hd Hk Hv Hg0 Hd0 H1 H2 Hij.
  destruct (create_table _ _ _ _ _ _ _ Hrun Hm)
    as (g & d & k' & v' & Hg' & Hd' & Hkv' & _ & ->).
  assert (k' = k /\ v' = v) as [-> ->] by (split; congruence).
  assert (g = max_gvw) as -> by congruence.
  assert (d = dry_van_volume) as -> by congruence.
  rewrite list_lookup_fmap in H1, H2.
  destruct (py_range 100 1001 100 !! i) as [x1|] eqn:E1; [|discriminate].
  destruct (py_range 100 1001 100 !! j) as [x2|] eqn:E2; [|discriminate].
  simpl in H1, H2.
  assert (r1 = range_row k v max_gvw dry_van_volume x1) as -> by congruence.
  assert (r2 = range_row k v max_gvw dry_van_volume x2) as -> by congruence.
  by eapply range_row_increasing_rounded.
Qed.

End RoundedClaims.

(** * The dictionary in insertion order, the charts and [main] *)

Section ChartsRun.

Context {num : Type} `{Number num}.

Implicit Types (w : World num) (fuel : string).
Implicit Types (d : list (string * list (Row num))).

(** ** [setitem] *)

Lemma list_to_map_setitem d fuel (t : list (Row num)) :
  (list_to_map (setitem d fuel t) : gmap string (list (Row num)))
  = <[fuel := t]> (list_to_map d).
Proof.
  induction d as [|[k v] rest IH]; simpl.
  - reflexivity.
  - destruct (String.eqb_spec k fuel) as [->|Hne]; simpl.
    + by rewrite insert_insert_eq.
    + rewrite IH. by apply insert_insert_ne.
Qed.

Lemma setitem_keys_old d fuel (t : list (Row num)) :
  fuel ∈ d.*1 -> (setitem d fuel t).*1 = d.*1.
Proof.
  induction d as [|[k v] rest IH]; simpl; intros Hin.
  - by apply elem_of_nil in Hin.
  - destruct (String.eqb_spec k fuel) as [->|Hne]; simpl; [done|].
    apply elem_of_cons in Hin as [->|Hin]; [done|].
    f_equal. by apply IH.
Qed.

Lemma setitem_keys_new d fuel (t : list (Row num)) :
  fuel ∉ d.*1 -> setitem d fuel t = d ++ [(fuel, t)].
Proof.
  induction d as [|[k v] rest IH]; simpl; intros Hout.
  - reflexivity.
  - apply not_elem_of_cons in Hout as [Hne Hout].
    destruct (String.eqb_spec k fuel) as [->|_]; [done|].
    simpl. f_equal. by apply IH.
Qed.

Lemma setitem_NoDup d fuel (t : list (Row num)) :
  NoDup d.*1 -> NoDup (setitem d fuel t).*1.
Proof.
  intros Hd. destruct (decide (fuel ∈ d.*1)) as [Hin|Hout].
  - by rewrite setitem_keys_old.
  - rewrite setitem_keys_new by done. rewrite fmap_app. simpl.
    apply NoDup_app. split; [done|]. split.
    + intros k Hk ->%list_elem_of_singleton. done.
    + apply NoDup_singleton.
Qed.

(** ** The ordered run *)

Lemma fuel_body_ordered_run (tff fif : frame) (g v : num) rv d fuel w :
  fuel_body_ordered tff fif g v rv d fuel w =
  match fuel_table (heap w tff) (heap w fif) g v rv fuel with
  | Ok None => (Ok d, reported w fuel)
  | Ok (Some t) => (Ok (setitem d fuel t), w)
  | Raise e => (Raise e, w)
  end.
Proof.
  unfold fuel_body_ordered, fuel_table, miles_per_fuel_of, bind at 1.
  rewrite get_mpgde_run.
  destruct (df_loc (heap w tff) fuel "MPGDE") as [mp|e0]; [|reflexivity].
  unfold bind, loc, lift, ret.
  destruct (df_loc (heap w fif) fuel "Energy Density (MJ / kg)"); [|reflexivity].
  destruct (df_loc (heap w fif) fuel "Mass Density (kg / m^3)"); [|reflexivity].
  destruct (df_loc (heap w fif) "Diesel" "Energy Density (MJ / kg)"); [|reflexivity].
  destruct (df_loc (heap w fif) "Diesel" "Mass Density (kg / m^3)"); [|reflexivity].
  reflexivity.
Qed.

(** The ordered loop computes [items_from], and it leaves the world the
    loop over the mapping leaves. *)
Lemma for_each_ordered_run (tff fif : frame) (g v : num) rv fuels d
    (acc : gmap string (list (Row num))) w :
  fst (for_each fuels (fuel_body_ordered tff fif g v rv) d w)
  = items_from (fuel_table (heap w tff) (heap w fif) g v rv) fuels d /\
  snd (for_each fuels (fuel_body_ordered tff fif g v rv) d w)
  = snd (for_each fuels (fuel_body tff fif g v rv) acc w).
Proof.
  revert d acc w. induction fuels as [|fuel rest IH]; intros d acc w; simpl.
  - done.
  - unfold bind. rewrite fuel_body_ordered_run, fuel_body_run.
    destruct (fuel_table (heap w tff) (heap w fif) g v rv fuel) as [[t|]|e].
    + apply IH.
    + destruct (IH d acc (reported w fuel)) as [Hr Hw]. simpl in Hr. done.
    + done.
Qed.

Section ItemsFrom.

Variable entry : string -> result (option (list (Row num))).

Lemma items_from_map fuels d :
  tables_from entry fuels (list_to_map d)
  = match items_from entry fuels d with
    | Ok d' => Ok (list_to_map d')
    | Raise e => Raise e
    end.
Proof.
  revert d. induction fuels as [|fuel rest IH]; intros d; simpl.
  - reflexivity.
  - destruct (entry fuel) as [[t|]|e]; [|apply IH|reflexivity].
    rewrite <- list_to_map_setitem. apply IH.
Qed.

Lemma items_from_NoDup fuels d d' :
  items_from entry fuels d = Ok d' -> NoDup d.*1 -> NoDup d'.*1.
Proof.
  revert d. induction fuels as [|fuel rest IH]; intros d; simpl.
  - by intros [= <-].
  - destruct (entry fuel) as [[t|]|e]; [| |discriminate].
    + intros Hrun Hd. apply (IH _ Hrun). by apply setitem_NoDup.
    + apply IH.
Qed.

(** The keys in order, for fuels that are distinct and new. *)
Lemma items_from_keys fuels d d' :
  items_from entry fuels d = Ok d' ->
  NoDup fuels ->
  (forall fuel, fuel ∈ fuels -> fuel ∉ d.*1) ->
  d'.*1 = d.*1 ++
    List.filter (fun fuel => match entry fuel with
                             | Ok (Some _) => true
                             | _ => false
                             end) fuels.
Proof.
  revert d. induction fuels as [|fuel rest IH]; intros d; simpl.
  - intros [= <-] _ _. by rewrite app_nil_r.
  - intros Hrun Hnd Hnew. apply NoDup_cons in Hnd as [Hfresh Hnd].
    destruct (entry fuel) as [[t|]|e]; [| |discriminate].
    + rewrite (IH _ Hrun Hnd).
      * rewrite setitem_keys_new by (apply Hnew; left).
        rewrite fmap_app. simpl. by rewrite <- app_assoc.
      * intros f Hf. rewrite setitem_keys_new by (apply Hnew; left).
        rewrite fmap_app. simpl. intros [Hin|Hin]%elem_of_app.
        -- by apply (Hnew f); [right|].
        -- apply list_elem_of_singleton in Hin as ->. done.
    + apply (IH _ Hrun Hnd). intros f Hf. apply Hnew. by right.
Qed.

End ItemsFrom.

Lemma create_ordered_run (tif tff fif : frame) w :
  fst (create_range_vs_fuel_ratio_dfs_ordered tif tff fif w)
  = match df_loc (heap w tif) "Max Gross Vehicle Weight (kg)" "Value" with
    | Raise e => Raise e
    | Ok max_gvw =>
    match df_loc (heap w tif) "Dry Van Volume (m^3)" "Value" with
    | Raise e => Raise e
    | Ok dry_van_volume =>
        items_from
          (fuel_table (heap w tff) (heap w fif) max_gvw dry_van_volume
             (py_range 100 1001 100))
          (index (heap w fif)) []
    end end /\
  snd (create_range_vs_fuel_ratio_dfs_ordered tif tff fif w)
  = snd (create_range_vs_fuel_ratio_dfs tif tff fif w).
Proof.
  unfold create_range_vs_fuel_ratio_dfs_ordered,
    create_range_vs_fuel_ratio_dfs, bind, loc, lift, get_index.
  destruct (df_loc (heap w tif) "Max Gross Vehicle Weight (kg)" "Value");
    [|done].
  destruct (df_loc (heap w tif) "Dry Van Volume (m^3)" "Value"); [|done].
  apply for_each_ordered_run.
Qed.

(** The mapping is the content of the ordered dictionary. *)
Lemma create_ordered_content (tif tff fif : frame) w :
  fst (create_range_vs_fuel_ratio_dfs tif tff fif w)
  = match fst (create_range_vs_fuel_ratio_dfs_ordered tif tff fif w) with
    | Ok d => Ok (list_to_map d)
    | Raise e => Raise e
    end.
Proof.
  destruct (create_run tif tff fif w) as [_ ->].
  destruct (create_ordered_run tif tff fif w) as [-> _].
  unfold tables_of.
  destruct (df_loc (heap w tif) "Max Gross Vehicle Weight (kg)" "Value");
    [|done].
  destruct (df_loc (heap w tif) "Dry Van Volume (m^3)" "Value"); [|done].
  apply (items_from_map _ _ []).
Qed.

(** ** The calls *)

Lemma labels_on_app (ax : axes) (c1 c2 : list (call num)) :
  labels_on ax (c1 ++ c2) = labels_on ax c1 ++ labels_on ax c2.
Proof. unfold labels_on. apply flat_map_app. Qed.

Lemma labels_on_plots (ax ax' : axes) (col : Row num -> num) d :
  labels_on ax
    (map (fun '(fuel, df) => plot ax' (map truck_range df) (map col df) fuel) d)
  = match ax, ax' with
    | ax1, ax1 | ax2, ax2 => d.*1
    | _, _ => []
    end.
Proof.
  induction d as [|[fuel df] rest IH]; simpl.
  - by destruct ax, ax'.
  - unfold labels_on in *. simpl. rewrite IH. by destruct ax, ax'.
Qed.

Lemma plot_labels (ax : axes) d :
  labels_on ax (plot_fuel_mass_volume_percentage_stacked d) = d.*1.
Proof.
  unfold plot_fuel_mass_volume_percentage_stacked.
  rewrite !labels_on_app, !labels_on_plots.
  destruct ax; simpl; by rewrite ?app_nil_r.
Qed.

Lemma plot_lines (ax : axes) x y fuel d :
  plot ax x y fuel ∈ plot_fuel_mass_volume_percentage_stacked d ->
  exists df, (fuel, df) ∈ d /\ x = map truck_range df /\
    y = map (match ax with
             | ax1 => fuel_volume_percentage
             | ax2 => fuel_mass_percentage
             end) df.
Proof.
  unfold plot_fuel_mass_volume_percentage_stacked.
  rewrite !elem_of_app. intros [Hc|[Hc|[Hc|[Hc|Hc]]]].
  - apply list_elem_of_singleton in Hc. discriminate.
  - apply list_elem_of_fmap in Hc as ([f df] & [= -> -> -> ->] & Hin). eauto.
  - repeat (apply elem_of_cons in Hc as [Hc|Hc]; [discriminate|]).
    by apply elem_of_nil in Hc.
  - apply list_elem_of_fmap in Hc as ([f df] & [= -> -> -> ->] & Hin). eauto.
  - repeat (apply elem_of_cons in Hc as [Hc|Hc]; [discriminate|]).
    by apply elem_of_nil in Hc.
Qed.

End ChartsRun.

(** * Further properties of the program *)

Section FurtherRun.

Context {num : Type} `{Number num}.

Implicit Types (w : World num) (fuel row col : string).
Implicit Types (m : gmap string (list (Row num))).

Section TablesFromMore.

Variable entry : string -> result (option (list (Row num))).

Lemma tables_from_returns fuels acc :
  (forall fuel, fuel ∈ fuels -> exists o, entry fuel = Ok o) ->
  exists m, tables_from entry fuels acc = Ok m.
Proof.
  revert acc. induction fuels as [|f rest IH]; intros acc Hall; simpl.
  - eauto.
  - destruct (Hall f) as [o Ho]; [left|]. rewrite Ho.
    destruct o; apply IH; intros fuel Hin; apply Hall; by right.
Qed.

Lemma tables_from_no_raise fuels acc m fuel :
  tables_from entry fuels acc = Ok m ->
  fuel ∈ fuels -> exists o, entry fuel = Ok o.
Proof.
  intros Hrun Hin. destruct (entry fuel) as [o|e] eqn:E; [eauto|].
  destruct (tables_from_raises _ _ acc _ _ Hin E) as [e' He']. congruence.
Qed.

End TablesFromMore.

Lemma tables_from_perm
    (entry1 entry2 : string -> result (option (list (Row num))))
    (fuels1 fuels2 : list string) m :
  (forall fuel, entry1 fuel = entry2 fuel) ->
  fuels1 ≡ₚ fuels2 ->
  tables_from entry1 fuels1 ∅ = Ok m ->
  tables_from entry2 fuels2 ∅ = Ok m.
Proof.
  intros Hext Hperm Hrun.
  destruct (tables_from_returns entry2 fuels2 ∅) as [m2 Hrun2].
  { intros fuel Hin. rewrite <- Hext. rewrite <- Hperm in Hin.
    by eapply tables_from_no_raise. }
  rewrite Hrun2. f_equal. apply map_eq. intros fuel.
  destruct (m2 !! fuel) as [t2|] eqn:E2, (m !! fuel) as [t|] eqn:E; [| | |done].
  - destruct (tables_from_lookup _ _ _ _ _ _ Hrun2 E2) as [[_ He2]|Hacc];
      [|by rewrite lookup_empty in Hacc].
    destruct (tables_from_lookup _ _ _ _ _ _ Hrun E) as [[_ He]|Hacc];
      [|by rewrite lookup_empty in Hacc].
    rewrite Hext in He. congruence.
  - destruct (tables_from_lookup _ _ _ _ _ _ Hrun2 E2) as [[Hin He2]|Hacc];
      [|by rewrite lookup_empty in Hacc].
    rewrite <- Hperm in Hin. rewrite <- Hext in He2.
    rewrite (tables_from_complete _ _ _ _ _ _ Hrun Hin He2) in E. discriminate.
  - destruct (tables_from_lookup _ _ _ _ _ _ Hrun E) as [[Hin He]|Hacc];
      [|by rewrite lookup_empty in Hacc].
    rewrite Hperm in Hin. rewrite Hext in He.
    rewrite (tables_from_complete _ _ _ _ _ _ Hrun2 Hin He) in E2. discriminate.
Qed.

Lemma fuel_table_ext (tff1 tff2 fif1 fif2 : DataFrame num) (g d : num) rv fuel :
  (forall row col, df_loc tff1 row col = df_loc tff2 row col) ->
  (forall row col, df_loc fif1 row col = df_loc fif2 row col) ->
  fuel_table tff1 fif1 g d rv fuel = fuel_table tff2 fif2 g d rv fuel.
Proof.
  intros Htff Hfif. unfold fuel_table, miles_per_fuel_of.
  by rewrite !Htff, !Hfif.
Qed.

Lemma miles_per_fuel_of_Ok_inv (tff fif : DataFrame num) fuel kv :
  miles_per_fuel_of tff fif fuel = Ok kv ->
  "Diesel" ∈ index fif /\
  "Energy Density (MJ / kg)" ∈ columns fif /\
  "Mass Density (kg / m^3)" ∈ columns fif.
Proof.
  unfold miles_per_fuel_of.
  destruct (df_loc tff fuel "MPGDE"); [|discriminate].
  destruct (df_loc fif fuel "Energy Density (MJ / kg)"); [|discriminate].
  destruct (df_loc fif fuel "Mass Density (kg / m^3)"); [|discriminate].
  destruct (df_loc fif "Diesel" "Energy Density (MJ / kg)") eqn:E1;
    [|discriminate].
  destruct (df_loc fif "Diesel" "Mass Density (kg / m^3)") eqn:E2;
    [|discriminate].
  apply df_loc_Ok_inv in E1 as [? ?]. apply df_loc_Ok_inv in E2 as [? ?].
  done.
Qed.

(** A rated fuel of the index has a table in the mapping a run returns. *)
Lemma rated_fuel_has_table (tif tff fif : frame) w m fuel :
  fst (create_range_vs_fuel_ratio_dfs tif tff fif w) = Ok m ->
  fuel ∈ index (heap w fif) ->
  is_rated (heap w tff) fuel = true ->
  exists table, m !! fuel = Some table.
Proof.
  intros Hrun Hin Hrated.
  destruct (create_run tif tff fif w) as [_ Heq].
  rewrite Heq in Hrun. unfold tables_of in Hrun.
  destruct (df_loc (heap w tif) "Max Gross Vehicle Weight (kg)" "Value")
    as [g|]; [|discriminate].
  destruct (df_loc (heap w tif) "Dry Van Volume (m^3)" "Value")
    as [d|]; [|discriminate].
  pose proof (fuel_table_rated (heap w tff) (heap w fif) g d
                (py_range 100 1001 100) fuel) as Hr.
  destruct (tables_from_no_raise _ _ _ _ _ Hrun Hin) as [[t|] Et];
    rewrite Et in Hr; [|congruence].
  exists t. by eapply tables_from_complete.
Qed.

(** X4. On an efficiency table whose row labels are distinct and whose
    column labels are distinct, [get_mpgde] never raises and leaves the
    frames as they are: when the fuel is a row label and 'MPGDE' a column
    label it returns the cell and prints nothing; in every other case it
    returns [None] and prints one line. *)
Theorem get_mpgde_never_raises fuel (tff : frame) w :
  NoDup (index (heap w tff)) ->
  NoDup (columns (heap w tff)) ->
  (exists o, fst (get_mpgde fuel tff w) = Ok o) /\
  heap (snd (get_mpgde fuel tff w)) = heap w /\
  (fuel ∈ index (heap w tff) /\ "MPGDE" ∈ columns (heap w tff) ->
   exists v, df_loc (heap w tff) fuel "MPGDE" = Ok v /\
             get_mpgde fuel tff w = (Ok (Some v), w)) /\
  (fuel ∉ index (heap w tff) \/ "MPGDE" ∉ columns (heap w tff) ->
   get_mpgde fuel tff w = (Ok None, reported w fuel)).
Proof.
  intros _ _. rewrite get_mpgde_run. repeat split.
  - destruct (df_loc (heap w tff) fuel "MPGDE"); simpl; eauto.
  - by destruct (df_loc (heap w tff) fuel "MPGDE").
  - intros [Hrow Hcol].
    destruct (df_loc_present (heap w tff) fuel "MPGDE" Hrow Hcol) as [v Hv].
    exists v. by rewrite Hv.
  - intros Hmiss.
    destruct (df_loc (heap w tff) fuel "MPGDE") as [v|e] eqn:E; [|done].
    apply df_loc_Ok_inv in E as [? ?]. exfalso. tauto.
Qed.

(** What a run that returns has found: the two truck attribute rows
    and the 'Value' column and, if at least one fuel of the
    fuel-property table is rated, the 'Diesel' row and the two density
    columns. *)
Lemma run_returns_requires (tif tff fif : frame) w m :
  fst (create_range_vs_fuel_ratio_dfs tif tff fif w) = Ok m ->
  ("Max Gross Vehicle Weight (kg)" ∈ index (heap w tif) /\
   "Dry Van Volume (m^3)" ∈ index (heap w tif) /\
   "Value" ∈ columns (heap w tif)) /\
  ((exists fuel, fuel ∈ index (heap w fif) /\
                 is_rated (heap w tff) fuel = true) ->
   "Diesel" ∈ index (heap w fif) /\
   "Energy Density (MJ / kg)" ∈ columns (heap w fif) /\
   "Mass Density (kg / m^3)" ∈ columns (heap w fif)).
Proof.
  intros Hrun. split.
  - destruct (create_run tif tff fif w) as [_ Heq].
    rewrite Heq in Hrun. unfold tables_of in Hrun.
    destruct (df_loc (heap w tif) "Max Gross Vehicle Weight (kg)" "Value")
      as [g|] eqn:Eg; [|discriminate].
    destruct (df_loc (heap w tif) "Dry Van Volume (m^3)" "Value")
      as [d|] eqn:Ed; [|discriminate].
    apply df_loc_Ok_inv in Eg as [? ?]. apply df_loc_Ok_inv in Ed as [? ?].
    done.
  - intros (fuel & Hin & Hrated).
    destruct (rated_fuel_has_table _ _ _ _ _ _ Hrun Hin Hrated)
      as [table Hm].
    destruct (create_table _ _ _ _ _ _ _ Hrun Hm)
      as (g & d & k & v & _ & _ & Hkv & _ & _).
    by eapply miles_per_fuel_of_Ok_inv.
Qed.

(** X5. When the run returns and when it raises, for three tables whose
    row labels are distinct and whose column labels are distinct: it
    returns a mapping exactly when the two truck attribute rows and the
    'Value' column are there and, if at least one fuel of the
    fuel-property table is rated, the 'Diesel' row and the two density
    columns are there too. *)
Theorem run_returns_iff (tif tff fif : frame) w :
  NoDup (index (heap w tif)) -> NoDup (columns (heap w tif)) ->
  NoDup (index (heap w tff)) -> NoDup (columns (heap w tff)) ->
  NoDup (index (heap w fif)) -> NoDup (columns (heap w fif)) ->
  (exists m, fst (create_range_vs_fuel_ratio_dfs tif tff fif w) = Ok m) <->
  ("Max Gross Vehicle Weight (kg)" ∈ index (heap w tif) /\
   "Dry Van Volume (m^3)" ∈ index (heap w tif) /\
   "Value" ∈ columns (heap w tif)) /\
  ((exists fuel, fuel ∈ index (heap w fif) /\
                 is_rated (heap w tff) fuel = true) ->
   "Diesel" ∈ index (heap w fif) /\
   "Energy Density (MJ / kg)" ∈ columns (heap w fif) /\
   "Mass Density (kg / m^3)" ∈ columns (heap w fif)).
Proof.
  intros _ _ _ _ _ _. split.
  - intros [m Hrun]. by eapply run_returns_requires.
  - intros [(Hg & Hd & Hv) Hfuel].
    destruct (create_run tif tff fif w) as [_ ->]. unfold tables_of.
    destruct (df_loc_present _ _ _ Hg Hv) as [g ->].
    destruct (df_loc_present _ _ _ Hd Hv) as [d ->].
    apply tables_from_returns. intros fuel Hin.
    unfold fuel_table.
    destruct (df_loc (heap w tff) fuel "MPGDE") as [mp|e] eqn:Emp; [|eauto].
    destruct Hfuel as (HD & HE & HM).
    { exists fuel. split; [exact Hin|]. unfold is_rated. by rewrite Emp. }
    unfold miles_per_fuel_of. rewrite Emp.
    destruct (df_loc_present _ _ _ Hin HE) as [eF ->].
    destruct (df_loc_present _ _ _ Hin HM) as [mF ->].
    destruct (df_loc_present _ _ _ HD HE) as [eD ->].
    destruct (df_loc_present _ _ _ HD HM) as [mD ->].
    destruct (calculate_miles_per_fuel mp eF mF eD mD). eauto.
Qed.

(** X6. The mapping a run returns does not depend on the order of the
    rows or of the columns of the tables: two worlds whose frames answer
    every lookup alike, and whose fuel-property tables list the same
    fuels in any order, give the same mapping. *)
Theorem mapping_ignores_the_order (tif tff fif : frame) w1 w2 m :
  (forall row col, df_loc (heap w1 tif) row col = df_loc (heap w2 tif) row col) ->
  (forall row col, df_loc (heap w1 tff) row col = df_loc (heap w2 tff) row col) ->
  (forall row col, df_loc (heap w1 fif) row col = df_loc (heap w2 fif) row col) ->
  index (heap w1 fif) ≡ₚ index (heap w2 fif) ->
  fst (create_range_vs_fuel_ratio_dfs tif tff fif w1) = Ok m ->
  fst (create_range_vs_fuel_ratio_dfs tif tff fif w2) = Ok m.
Proof.
  intros Hti Htff Hfif Hperm.
  destruct (create_run tif tff fif w1) as [_ ->].
  destruct (create_run tif tff fif w2) as [_ ->].
  unfold tables_of. rewrite <- !Hti.
  destruct (df_loc (heap w1 tif) "Max Gross Vehicle Weight (kg)" "Value")
    as [g|]; [|done].
  destruct (df_loc (heap w1 tif) "Dry Van Volume (m^3)" "Value")
    as [d|]; [|done].
  apply tables_from_perm; [|exact Hperm].
  intros fuel. by apply fuel_table_ext.
Qed.

(** X8. Fatal errors abort before any chart appears.  For three tables
    whose row labels are distinct and whose column labels are distinct:
    when a truck attribute row or the 'Value' column is missing, or when
    a fuel of the fuel-property table is rated and the 'Diesel' row or a
    density column is missing, [main] raises, has made no call of
    matplotlib and leaves the frames as they were. *)
Theorem main_aborts_before_plotting w :
  NoDup (index (heap w TruckInfo)) -> NoDup (columns (heap w TruckInfo)) ->
  NoDup (index (heap w TruckFuelInfo)) ->
  NoDup (columns (heap w TruckFuelInfo)) ->
  NoDup (index (heap w FuelInfo)) -> NoDup (columns (heap w FuelInfo)) ->
  "Max Gross Vehicle Weight (kg)" ∉ index (heap w TruckInfo) \/
  "Dry Van Volume (m^3)" ∉ index (heap w TruckInfo) \/
  "Value" ∉ columns (heap w TruckInfo) \/
  ((exists fuel, fuel ∈ index (heap w FuelInfo) /\
                 is_rated (heap w TruckFuelInfo) fuel = true) /\
   ("Diesel" ∉ index (heap w FuelInfo) \/
    "Energy Density (MJ / kg)" ∉ columns (heap w FuelInfo) \/
    "Mass Density (kg / m^3)" ∉ columns (heap w FuelInfo))) ->
  exists e w', main w = (Raise e, w', []) /\ heap w' = heap w.
Proof.
  intros _ _ _ _ _ _ Hmiss.
  destruct (create_run TruckInfo TruckFuelInfo FuelInfo w) as [Hheap _].
  destruct (create_ordered_run TruckInfo TruckFuelInfo FuelInfo w)
    as [_ Hsnd].
  pose proof (create_ordered_content TruckInfo TruckFuelInfo FuelInfo w)
    as Hfst.
  unfold main.
  destruct (create_range_vs_fuel_ratio_dfs_ordered
              TruckInfo TruckFuelInfo FuelInfo w) as [[d|e] w'];
    simpl in Hfst, Hsnd.
  - exfalso.
    destruct (run_returns_requires TruckInfo TruckFuelInfo FuelInfo w _ Hfst)
      as [(Hg & Hd & Hv) Hfuel].
    destruct Hmiss as [?|[?|[?|[Hrated Hm]]]]; [done..|].
    destruct (Hfuel Hrated) as (? & ? & ?). tauto.
  - exists e, w'. split; [reflexivity|]. by rewrite Hsnd.
Qed.

(** X9. When [main] returns and the fuel-property table lists each fuel
    once, the lines of the top chart and the lines of the bottom chart
    are labelled with the rated fuels of that table, in the order of the
    table, in both charts alike. *)
Theorem charts_show_the_rated_fuels w w' (calls : list (call num)) :
  NoDup (index (heap w FuelInfo)) ->
  main w = (Ok tt, w', calls) ->
  labels_on ax1 calls
  = List.filter (is_rated (heap w TruckFuelInfo)) (index (heap w FuelInfo)) /\
  labels_on ax2 calls = labels_on ax1 calls.
Proof.
  intros Hnd. unfold main.
  destruct (create_ordered_run TruckInfo TruckFuelInfo FuelInfo w)
    as [Hfst _].
  destruct (create_range_vs_fuel_ratio_dfs_ordered
              TruckInfo TruckFuelInfo FuelInfo w) as [[d|e'] w''];
    [|discriminate].
  intros [= _ <-]. rewrite !plot_labels. split; [|done].
  simpl in Hfst. symmetry in Hfst.
  destruct (df_loc (heap w TruckInfo) "Max Gross Vehicle Weight (kg)" "Value")
    as [g|]; [|discriminate].
  destruct (df_loc (heap w TruckInfo) "Dry Van Volume (m^3)" "Value")
    as [v|]; [|discriminate].
  rewrite (items_from_keys _ _ _ _ Hfst Hnd)
    by (intros; apply not_elem_of_nil).
  simpl. apply filter_ext_in_iff. intros fuel Hin.
  pose proof (fuel_table_rated (heap w TruckFuelInfo) (heap w FuelInfo) g v
                (py_range 100 1001 100) fuel) as Hr.
  assert (exists o, fuel_table (heap w TruckFuelInfo) (heap w FuelInfo) g v
                      (py_range 100 1001 100) fuel = Ok o) as [o Ho].
  { pose proof (items_from_map
                  (fuel_table (heap w TruckFuelInfo) (heap w FuelInfo) g v
                     (py_range 100 1001 100))
                  (index (heap w FuelInfo)) []) as Hmap.
    rewrite Hfst in Hmap.
    eapply tables_from_no_raise; [exact Hmap | by apply list_elem_of_In]. }
  rewrite Ho in *. by destruct o.
Qed.

(** X10. Every line [main] draws belongs to a fuel of the mapping the
    table builder returns: its x values are the ranges 100, 200, ...,
    1000 and its y values are that fuel's volume-percentage column in the
    top chart and its mass-percentage column in the bottom chart. *)
Theorem lines_are_the_table_columns w w' (calls : list (call num)) m
    (ax : axes) x y fuel :
  main w = (Ok tt, w', calls) ->
  fst (create_range_vs_fuel_ratio_dfs TruckInfo TruckFuelInfo FuelInfo w)
  = Ok m ->
  plot ax x y fuel ∈ calls ->
  exists table,
    m !! fuel = Some table /\
    x = [100; 200; 300; 400; 500; 600; 700; 800; 900; 1000] /\
    y = map (match ax with
             | ax1 => fuel_volume_percentage
             | ax2 => fuel_mass_percentage
             end) table.
Proof.
  unfold main. intros Hmain Hrun Hcall.
  rewrite create_ordered_content in Hrun.
  destruct (create_ordered_run TruckInfo TruckFuelInfo FuelInfo w)
    as [Hfst _].
  destruct (create_range_vs_fuel_ratio_dfs_ordered
              TruckInfo TruckFuelInfo FuelInfo w) as [[d|e'] w''];
    [|discriminate].
  injection Hmain as _ <-. simpl in Hrun, Hfst. injection Hrun as <-.
  apply plot_lines in Hcall as (df & Hin & -> & ->).
  assert (NoDup d.*1) as Hnd.
  { symmetry in Hfst.
    destruct (df_loc (heap w TruckInfo) "Max Gross Vehicle Weight (kg)" "Value");
      [|discriminate].
    destruct (df_loc (heap w TruckInfo) "Dry Van Volume (m^3)" "Value");
      [|discriminate].
    eapply items_from_NoDup; [exact Hfst | apply NoDup_nil_2]. }
  assert ((list_to_map d : gmap string (list (Row num))) !! fuel = Some df)
    as Hm by by apply elem_of_list_to_map_1.
  exists df. split; [exact Hm|]. split; [|done].
  assert (fst (create_range_vs_fuel_ratio_dfs TruckInfo TruckFuelInfo
                 FuelInfo w) = Ok (list_to_map d)) as Hrun'.
  { rewrite create_ordered_content.
    destruct (create_ordered_run TruckInfo TruckFuelInfo FuelInfo w)
      as [Hfst' _].
    rewrite Hfst', <- Hfst. reflexivity. }
  destruct (create_table _ _ _ _ _ _ _ Hrun' Hm)
    as (g & v & k & v' & _ & _ & _ & _ & ->).
  rewrite range_values_ladder. reflexivity.
Qed.

End FurtherRun.

(** * One fuel among the others *)

Section Frame.
Context {num : Type} `{Number num}.
Implicit Types (w : World num) (fuel row col : string).
Implicit Types (m : gmap string (list (Row num))).

Lemma miles_per_fuel_of_ext (tff1 tff2 fif1 fif2 : DataFrame num) fuel :
  (forall col, df_loc tff1 fuel col = df_loc tff2 fuel col) ->
  (forall col, df_loc fif1 fuel col = df_loc fif2 fuel col) ->
  (forall col, df_loc fif1 "Diesel" col = df_loc fif2 "Diesel" col) ->
  miles_per_fuel_of tff1 fif1 fuel = miles_per_fuel_of tff2 fif2 fuel.
Proof.
  intros Htff Hfuel Hdiesel. unfold miles_per_fuel_of.
  by rewrite Htff, !Hfuel, !Hdiesel.
Qed.

(** X11. The table of a fuel depends on the truck table, on the fuel's
    own rows and on the 'Diesel' row only: in two runs that return, on
    tables that agree there, a fuel of the first mapping that the second
    fuel-property table lists has the same table in the second. *)
Theorem table_depends_on_its_own_rows (tif tff fif : frame) w1 w2 m1 m2 fuel
    (table : list (Row num)) :
  (forall row col, df_loc (heap w1 tif) row col = df_loc (heap w2 tif) row col) ->
  (forall col, df_loc (heap w1 tff) fuel col = df_loc (heap w2 tff) fuel col) ->
  (forall col, df_loc (heap w1 fif) fuel col = df_loc (heap w2 fif) fuel col) ->
  (forall col,
     df_loc (heap w1 fif) "Diesel" col = df_loc (heap w2 fif) "Diesel" col) ->
  fuel ∈ index (heap w2 fif) ->
  fst (create_range_vs_fuel_ratio_dfs tif tff fif w1) = Ok m1 ->
  fst (create_range_vs_fuel_ratio_dfs tif tff fif w2) = Ok m2 ->
  m1 !! fuel = Some table ->
  m2 !! fuel = Some table.
Proof.
  intros Hti Htff Hfuel Hdiesel Hin Hrun1 Hrun2 Hm1.
  destruct (create_table _ _ _ _ _ _ _ Hrun1 Hm1)
    as (g & d & k & v & Hg & Hd & Hkv & _ & ->).
  rewrite (miles_per_fuel_of_ext _ (heap w2 tff) _ (heap w2 fif) fuel
             Htff Hfuel Hdiesel) in Hkv.
  destruct (miles_per_fuel_of_rated _ _ _ _ Hkv) as [mpgde Hmp].
  destruct (rated_fuel_has_table _ _ _ _ _ _ Hrun2 Hin) as [t2 Hm2];
    [unfold is_rated; by rewrite Hmp|].
  rewrite Hm2. f_equal.
  destruct (create_table _ _ _ _ _ _ _ Hrun2 Hm2)
    as (g' & d' & k' & v' & Hg' & Hd' & Hkv' & _ & ->).
  rewrite Hti in Hg, Hd. congruence.
Qed.

End Frame.

(** * An empty rating in binary64 *)

Section NaN.

Implicit Types (x y : float).

Lemma is_nan_Prim2SF x : PrimFloat.is_nan x = true <-> FloatOps.Prim2SF x = SpecFloat.S754_nan.
Proof.
  split.
  - intros Hx. unfold FloatOps.Prim2SF. by rewrite Hx.
  - intros Hx. unfold PrimFloat.is_nan.
    rewrite FloatAxioms.eqb_spec, Hx. reflexivity.
Qed.

Lemma is_nan_div_l x y :
  PrimFloat.is_nan x = true -> PrimFloat.is_nan (PrimFloat.div x y) = true.
Proof.
  rewrite !is_nan_Prim2SF, FloatAxioms.div_spec. intros ->. reflexivity.
Qed.

Lemma is_nan_div_r x y :
  PrimFloat.is_nan y = true -> PrimFloat.is_nan (PrimFloat.div x y) = true.
Proof.
  rewrite !is_nan_Prim2SF, FloatAxioms.div_spec. intros ->.
  by destruct (FloatOps.Prim2SF x).
Qed.

Lemma is_nan_mul_l x y :
  PrimFloat.is_nan x = true -> PrimFloat.is_nan (PrimFloat.mul x y) = true.
Proof.
  rewrite !is_nan_Prim2SF, FloatAxioms.mul_spec. intros ->. reflexivity.
Qed.

(** X7. In binary64 a rating that is NaN, which is what [read_csv] makes
    of an empty cell, is not skipped: when the run returns, the fuel has
    a table of 10 rows, and the fuel mass, the mass percentage, the fuel
    volume and the volume percentage of every row are NaN. *)
Theorem nan_rating_gives_nan_columns (tif tff fif : frame) (w : World float)
    (m : gmap string (list (Row float))) (fuel : string) (mpgde : float) :
  fst (create_range_vs_fuel_ratio_dfs tif tff fif w) = Ok m ->
  fuel ∈ index (heap w fif) ->
  df_loc (heap w tff) fuel "MPGDE" = Ok mpgde ->
  PrimFloat.is_nan mpgde = true ->
  exists table,
    m !! fuel = Some table /\
    length table = 10%nat /\
    Forall (fun row =>
              PrimFloat.is_nan (fuel_mass row) = true /\
              PrimFloat.is_nan (fuel_mass_percentage row) = true /\
              PrimFloat.is_nan (fuel_volume row) = true /\
              PrimFloat.is_nan (fuel_volume_percentage row) = true)
           table.
Proof.
  intros Hrun Hin Hmp Hnan.
  destruct (rated_fuel_has_table tif tff fif w m fuel Hrun Hin)
    as [table Hm]; [unfold is_rated; by rewrite Hmp|].
  exists table. split; [exact Hm|].
  destruct (create_table _ _ _ _ _ _ _ Hrun Hm)
    as (g & d & k & v & _ & _ & Hkv & _ & ->).
  split; [by rewrite range_values_ladder|].
  unfold miles_per_fuel_of in Hkv. rewrite Hmp in Hkv.
  destruct (df_loc (heap w fif) fuel "Energy Density (MJ / kg)") as [eF|];
    [|discriminate].
  destruct (df_loc (heap w fif) fuel "Mass Density (kg / m^3)") as [mF|];
    [|discriminate].
  destruct (df_loc (heap w fif) "Diesel" "Energy Density (MJ / kg)") as [eD|];
    [|discriminate].
  destruct (df_loc (heap w fif) "Diesel" "Mass Density (kg / m^3)") as [mD|];
    [|discriminate].
  unfold calculate_miles_per_fuel in Hkv. simpl in Hkv.
  injection Hkv as <- <-.
  set (k := PrimFloat.div
              (PrimFloat.mul (PrimFloat.div mpgde (PrimFloat.div mD GALLONS_PER_M3)) eF)
              eD).
  assert (PrimFloat.is_nan k = true) as Hk
    by by apply is_nan_div_l, is_nan_mul_l, is_nan_div_l.
  assert (PrimFloat.is_nan (PrimFloat.mul k mF) = true) as Hv
    by by apply is_nan_mul_l.
  apply Forall_fmap, Forall_forall. intros r _. simpl.
  repeat split.
  - by apply is_nan_div_r.
  - by apply is_nan_mul_l, is_nan_div_l, is_nan_div_r.
  - by apply is_nan_div_r.
  - by apply is_nan_mul_l, is_nan_div_l, is_nan_div_r.
Qed.

End NaN.

(** * The claims on concrete runs *)

(** Two binary64 numbers differ when bitwise comparison tells them apart. *)
Ltac float_neq :=
  let E := fresh "E" in
  intros E;
  lazymatch type of E with
  | ?a = _ => apply (f_equal (fun x => PrimFloat.Leibniz.eqb a x)) in E
  end;
  vm_compute in E;
  discriminate E.

(** Membership of a label in a list of labels, by evaluation. *)
Ltac labels := apply (bool_decide_unpack _); vm_compute; exact I.

Ltac run := vm_compute; reflexivity.

(** ** The spec's example in binary64 *)

(** The first row of the diesel table, as the program prints it:
    32.176006541192855 kg, 0.16088003270596427 %, 0.03785412534257983 m^3
    and 0.03785412534257983 %. *)
Example example_diesel_row_100 :
  exists m table,
    fst (main_tables (num := float) example_world) = Ok m /\
    m !! "Diesel" = Some table /\
    table !! 0%nat
    = Some {| truck_range := 100;
              fuel_mass := 0x1.0168761e12717p+5%float;
              fuel_mass_percentage := 0x1.497b78786986fp-3%float;
              fuel_volume := 0x1.3619dacbae9d2p-5%float;
              fuel_volume_percentage := 0x1.3619dacbae9d2p-5%float |}.
Proof. eexists _, _. split; [|split]; run. Qed.

(** The ladder of the diesel table. *)
Lemma table_range_ladder_witness :
  exists m table,
    fst (main_tables (num := float) example_world) = Ok m /\
    m !! "Diesel" = Some table /\
    length table = 10%nat /\
    map truck_range table
    = [100; 200; 300; 400; 500; 600; 700; 800; 900; 1000].
Proof.
  eexists _, _. split; [|split].
  3: eapply (table_range_ladder TruckInfo TruckFuelInfo FuelInfo
               example_world _ "Diesel").
  all: run.
Defined.


(** Row 300 of the diesel table. *)
Lemma percentage_columns_witness :
  exists m table row,
    fst (main_tables (num := float) example_world) = Ok m /\
    m !! "Diesel" = Some table /\
    table !! 2%nat = Some row /\
    fuel_mass_percentage row = (fuel_mass row / 20000%float * of_int 100)%num /\
    fuel_volume_percentage row = (fuel_volume row / 100%float * of_int 100)%num.
Proof.
  eexists _, _, _. split; [|split; [|split]].
  4: eapply (percentage_columns TruckInfo TruckFuelInfo FuelInfo
               example_world _ "Diesel" _ _ 20000%float 100%float).
  1-5: run.
  - eapply list_elem_of_lookup_2 with (i := 2%nat). run.
  - run.
  - run.
Defined.

(** C5 as stated fails in binary64: row 300 of the example's diesel table
    has a mass percentage that differs from 100 * fuel mass / max gross
    vehicle weight, and row 500 has a volume percentage that differs from
    100 * fuel volume / dry-van volume. *)
Lemma percentage_is_not_100_times_first :
  exists m table row3 row5,
    fst (main_tables (num := float) example_world) = Ok m /\
    m !! "Diesel" = Some table /\
    table !! 2%nat = Some row3 /\
    table !! 4%nat = Some row5 /\
    fuel_mass_percentage row3
    <> (100%float * fuel_mass row3 / 20000%float)%num /\
    fuel_volume_percentage row5
    <> (100%float * fuel_volume row5 / 100%float)%num.
Proof.
  eexists _, _, _, _. split; [|split; [|split; [|split; [|split]]]].
  1-4: run.
  - float_neq.
  - float_neq.
Qed.

(** C2 as stated fails in binary64: in row 100 of the example's diesel
    table the fuel volume times the miles-per-m3 is not 100. *)
Lemma round_trip_is_rounded :
  exists m table row k v,
    fst (main_tables (num := float) example_world) = Ok m /\
    m !! "Diesel" = Some table /\
    table !! 0%nat = Some row /\
    miles_per_fuel_of (heap example_world TruckFuelInfo)
      (heap example_world FuelInfo) "Diesel" = Ok (k, v) /\
    truck_range row = 100 /\
    (fuel_volume row * v)%num <> of_int (truck_range row).
Proof.
  eexists _, _, _, _, _. split; [|split; [|split; [|split; [|split]]]].
  1-5: run.
  float_neq.
Qed.

(** C6 as stated fails in binary64: for a rating of 5 MPGDE, 42 MJ/kg and
    820 kg/m^3 neither output is the closed form. *)
Lemma self_reference_is_rounded :
  fst (calculate_miles_per_fuel 5%float 42%float 820%float 42%float 820%float)
  <> (5%float * GALLONS_PER_M3 / 820%float)%num /\
  snd (calculate_miles_per_fuel 5%float 42%float 820%float 42%float 820%float)
  <> (5%float * GALLONS_PER_M3)%num.
Proof. split; float_neq. Qed.

(** C9 as stated fails in binary64: every number of [faint_world] is
    finite and positive, yet hydrogen's miles-per-kg underflows to zero,
    the division of the range by it has a zero divisor, and the fuel
    mass of the row is infinite. *)
Lemma underflow_gives_a_zero_divisor :
  forallb finite_positive
    [20000; 100; 10; 10; 45; 850; tiny; 71]%float = true /\
  exists m table row k v,
    fst (main_tables faint_world) = Ok m /\
    m !! "Hydrogen" = Some table /\
    table !! 0%nat = Some row /\
    miles_per_fuel_of (heap faint_world TruckFuelInfo)
      (heap faint_world FuelInfo) "Hydrogen" = Ok (k, v) /\
    k = 0%float /\
    k ∈ row_divisors k v 20000%float 100%float /\
    fuel_mass row = infinity.
Proof.
  split; [run|].
  eexists _, _, _, _, _.
  split; [|split; [|split; [|split; [|split; [|split]]]]].
  1-5: run.
  - left.
  - run.
Qed.

(** C10 as stated fails in binary64: the mileage constants and the
    capacities of [heavy_world] are finite and positive, yet the mass
    percentage underflows to zero in the rows 100 and 200 alike. *)
Lemma underflow_flattens_a_column :
  exists m table r1 r2 k v,
    fst (main_tables heavy_world) = Ok m /\
    m !! "Diesel" = Some table /\
    table !! 0%nat = Some r1 /\
    table !! 1%nat = Some r2 /\
    miles_per_fuel_of (heap heavy_world TruckFuelInfo)
      (heap heavy_world FuelInfo) "Diesel" = Ok (k, v) /\
    forallb finite_positive [k; v; 0x1p+1023; 100]%float = true /\
    fuel_mass_percentage r1 = 0%float /\
    fuel_mass_percentage r2 = 0%float /\
    PrimFloat.ltb (fuel_mass_percentage r1) (fuel_mass_percentage r2) = false.
Proof.
  eexists _, _, _, _, _, _.
  repeat match goal with |- _ /\ _ => split end; run.
Qed.

(** C7 as stated fails: the fuel-property table of
    [world_without_diesel_row "Diesel"] has no 'Diesel' row, and the
    efficiency table of [world_without_mpgde_column] has no 'MPGDE'
    column; both runs return the empty mapping instead of failing. *)
Lemma missing_keys_are_not_fatal :
  ("Diesel" ∉ index (heap (num := float)
                       (world_without_diesel_row "Diesel") FuelInfo)) /\
  fst (main_tables (num := float) (world_without_diesel_row "Diesel")) = Ok ∅
  /\
  ("MPGDE" ∉ columns (heap (num := float)
                        world_without_mpgde_column TruckFuelInfo)) /\
  fst (main_tables (num := float) world_without_mpgde_column) = Ok ∅.
Proof. split; [labels | split; [run | split; [labels | run]]]. Qed.

(** A truck table without the van row; a fuel table without the diesel
    row, with and without a rated fuel. *)
Lemma fatal_lookups_witness :
  (exists e, main_tables (num := float) world_without_van_row
             = (Raise e, world_without_van_row)) /\
  (exists e, fst (main_tables (num := float)
                    (world_without_diesel_row "Hydrogen")) = Raise e) /\
  fst (main_tables (num := float) (world_without_diesel_row "Diesel")) = Ok ∅.
Proof.
  split; [|split].
  - apply (fatal_lookups TruckInfo TruckFuelInfo FuelInfo).
    right; left. labels.
  - apply (proj1 (proj2 (fatal_lookups TruckInfo TruckFuelInfo FuelInfo
                           (world_without_diesel_row "Hydrogen")))
             "Hydrogen" 10%float).
    + labels.
    + run.
    + left. labels.
  - apply (proj2 (proj2 (fatal_lookups TruckInfo TruckFuelInfo FuelInfo
                           (world_without_diesel_row "Diesel")))
             20000%float 100%float).
    + run.
    + run.
    + intros fuel Hin. simpl in Hin.
      apply list_elem_of_singleton in Hin as ->. labels.
Defined.

(** Two runs on the example's frames, the second with a line already on
    the console. *)
Lemma create_is_a_function_of_the_frames_witness :
  fst (main_tables (num := float) example_world)
  = fst (main_tables (num := float) (reported example_world "Hydrogen")) /\
  heap (snd (main_tables (num := float) example_world))
  = heap example_world.
Proof.
  destruct (create_is_a_function_of_the_frames TruckInfo TruckFuelInfo
              FuelInfo (num := float) example_world
              (reported example_world "Hydrogen")) as (Hsame & Hheap & _);
    [reflexivity..|].
  split; [exact Hsame | exact Hheap].
Defined.

(** Row 100 of the diesel table. *)
Lemma rows_are_quotients_witness :
  exists m table row k v,
    fst (main_tables (num := float) example_world) = Ok m /\
    m !! "Diesel" = Some table /\
    table !! 0%nat = Some row /\
    miles_per_fuel_of (heap example_world TruckFuelInfo)
      (heap example_world FuelInfo) "Diesel" = Ok (k, v) /\
    fuel_mass row = (of_int (truck_range row) / k)%num /\
    fuel_volume row = (of_int (truck_range row) / v)%num.
Proof.
  eexists _, _, _, _, _. split; [|split; [|split; [|split]]].
  5: eapply (rows_are_quotients TruckInfo TruckFuelInfo FuelInfo
               example_world _ "Diesel").
  1-6, 8: run.
  eapply list_elem_of_lookup_2 with (i := 0%nat). run.
Defined.

(** Diesel, which is rated. *)
Lemma keys_are_the_rated_fuels_witness :
  exists m,
    fst (main_tables (num := float) example_world) = Ok m /\
    (is_Some (m !! "Diesel") <->
     "Diesel" ∈ index (heap (num := float) example_world FuelInfo) /\
     is_rated (heap (num := float) example_world TruckFuelInfo) "Diesel"
     = true).
Proof.
  eexists. split; [run|].
  apply (keys_are_the_rated_fuels TruckInfo TruckFuelInfo FuelInfo
           example_world). run.
Defined.

(** The one line of the example's run. *)
Lemma console_lists_the_skipped_fuels_witness :
  exists m w',
    main_tables (num := float) example_world = (Ok m, w') /\
    stdout w'
    = ["Fuel 'Hydrogen' not found in the truck fuel info dataframe."].
Proof.
  eexists _, _. split; [run|].
  erewrite (console_lists_the_skipped_fuels TruckInfo TruckFuelInfo FuelInfo
              example_world); [reflexivity | run].
Defined.

(** ** The claims about rounding on the spec's example *)

Ltac in_range_by_evaluation := split; qle.

(** The cells a lookup of a concrete frame can return lie in a range. *)
Ltac cell :=
  let Hin := fresh "Hin" in
  intros;
  match goal with
  | H : ?lookup = Ok _ |- _ =>
      first
        [ vm_compute in H; injection H as <-; in_range_by_evaluation
        | pose proof (df_loc_Ok_inv _ _ _ _ H) as [Hin _];
          simpl in Hin;
          repeat (apply elem_of_cons in Hin as [->|Hin]);
          [..|by apply elem_of_nil in Hin];
          vm_compute in H; injection H as <-; in_range_by_evaluation ]
  end.

(** Row 100 of the diesel table. *)
Lemma round_trip_binary64_witness :
  exists m table row k v,
    fst (main_tables (num := float) example_world) = Ok m /\
    m !! "Diesel" = Some table /\
    table !! 0%nat = Some row /\
    miles_per_fuel_of (heap example_world TruckFuelInfo)
      (heap example_world FuelInfo) "Diesel" = Ok (k, v) /\
    truck_range row = 100 /\
    (Qabs (fvalue (fuel_mass row * k) - inject_Z (truck_range row))
     <= inject_Z (truck_range row) * pow2 (-51))%Q /\
    (Qabs (fvalue (fuel_volume row * v) - inject_Z (truck_range row))
     <= inject_Z (truck_range row) * pow2 (-51))%Q.
Proof.
  eexists _, _, _, _, _. split; [|split; [|split; [|split; [|split]]]].
  6: eapply (round_trip_binary64 TruckInfo TruckFuelInfo FuelInfo
               example_world _ "Diesel").
  1-7, 9: run.
  - eapply list_elem_of_lookup_2 with (i := 0%nat). run.
  - in_range_by_evaluation.
  - in_range_by_evaluation.
Defined.

(** A rating of 5 MPGDE, 42 MJ/kg and 820 kg/m^3. *)
Lemma self_reference_binary64_witness :
  (Qabs (fvalue (fst (calculate_miles_per_fuel 5%float 42%float 820%float
                        42%float 820%float))
         - fvalue 5%float * (264172 # 1000) / fvalue 820%float)
   <= fvalue 5%float * (264172 # 1000) / fvalue 820%float * pow2 (-50))%Q /\
  (Qabs (fvalue (snd (calculate_miles_per_fuel 5%float 42%float 820%float
                        42%float 820%float))
         - fvalue 5%float * (264172 # 1000))
   <= fvalue 5%float * (264172 # 1000) * pow2 (-50))%Q.
Proof.
  apply (self_reference_binary64 5%float 42%float 820%float);
    in_range_by_evaluation.
Defined.

(** Diesel in the example. *)
Lemma divisors_positive_binary64_witness :
  exists m table,
    fst (main_tables (num := float) example_world) = Ok m /\
    m !! "Diesel" = Some table /\
    exists k v,
      calculate_miles_per_fuel 10%float 45%float 850%float 45%float 850%float
      = (k, v) /\
      Forall (fun divisor => finite_positive divisor = true)
        [GALLONS_PER_M3; (850 / GALLONS_PER_M3)%float; 45%float; k; v;
         20000%float; 100%float] /\
      Forall (fun row =>
                finite_positive (fuel_mass row) = true /\
                finite_positive (fuel_mass_percentage row) = true /\
                finite_positive (fuel_volume row) = true /\
                finite_positive (fuel_volume_percentage row) = true)
        table.
Proof.
  eexists _, _. split; [run|]. split; [run|].
  edestruct (divisors_positive_binary64 TruckInfo TruckFuelInfo FuelInfo
               example_world) with (fuel := "Diesel")
    as (mp & eF & mF & eD & mD & g & d & k & v & Emp & EeF & EmF & EeD & EmD
        & Eg & Ed & Ekv & Hdiv & Hrows); [run|run|cell..|].
  vm_compute in Emp, EeF, EmF, EeD, EmD, Eg, Ed.
  injection Emp as <-. injection EeF as <-. injection EmF as <-.
  injection EeD as <-. injection EmD as <-. injection Eg as <-.
  injection Ed as <-.
  exists k, v. split; [exact Ekv|]. split; [exact Hdiv|exact Hrows].
Defined.

(** Rows 100 and 200 of the diesel table. *)
Lemma columns_increase_binary64_witness :
  exists m table r1 r2,
    fst (main_tables (num := float) example_world) = Ok m /\
    m !! "Diesel" = Some table /\
    table !! 0%nat = Some r1 /\
    table !! 1%nat = Some r2 /\
    PrimFloat.ltb (fuel_mass r1) (fuel_mass r2) = true /\
    PrimFloat.ltb (fuel_mass_percentage r1) (fuel_mass_percentage r2) = true /\
    PrimFloat.ltb (fuel_volume r1) (fuel_volume r2) = true /\
    PrimFloat.ltb (fuel_volume_percentage r1) (fuel_volume_percentage r2)
    = true.
Proof.
  eexists _, _, _, _. split; [|split; [|split; [|split]]].
  5: eapply (columns_increase_binary64 TruckInfo TruckFuelInfo FuelInfo
               example_world _ "Diesel" _ _ _ 20000%float 100%float
               0%nat 1%nat).
  all: try in_range_by_evaluation.
  all: try run.
Defined.

(** ** Further properties on concrete runs *)

(** Both tables of the reordered example answer every lookup as the
    example's do. *)
Ltac same_lookups :=
  intros row col; unfold df_loc;
  cbn [heap example_world example_world_reordered world_of frame_of index
       columns values fuel_columns get_loc truck_info];
  repeat match goal with
         | |- context [String.eqb ?a ?b] =>
             destruct (String.eqb_spec a b); subst; cbn [option_map]
         end;
  first [reflexivity | discriminate | congruence].

(** The example and the example with rows and columns reordered. *)
Lemma mapping_ignores_the_order_witness :
  exists m,
    fst (main_tables (num := float) example_world) = Ok m /\
    fst (main_tables (num := float) example_world_reordered) = Ok m.
Proof.
  eexists.
  assert (fst (main_tables (num := float) example_world) = Ok _) as Hrun
    by run.
  split; [exact Hrun|].
  apply (mapping_ignores_the_order TruckInfo TruckFuelInfo FuelInfo
           example_world example_world_reordered); [..|exact Hrun].
  - same_lookups.
  - same_lookups.
  - same_lookups.
  - simpl. apply Permutation_swap.
Defined.

(** Hydrogen in [nan_world]. *)
Lemma nan_rating_gives_nan_columns_witness :
  exists m,
    fst (main_tables nan_world) = Ok m /\
    "Hydrogen" ∈ index (heap nan_world FuelInfo) /\
    df_loc (heap nan_world TruckFuelInfo) "Hydrogen" "MPGDE" = Ok nan /\
    PrimFloat.is_nan nan = true /\
    exists table,
      m !! "Hydrogen" = Some table /\
      length table = 10%nat /\
      Forall (fun row =>
                PrimFloat.is_nan (fuel_mass row) = true /\
                PrimFloat.is_nan (fuel_mass_percentage row) = true /\
                PrimFloat.is_nan (fuel_volume row) = true /\
                PrimFloat.is_nan (fuel_volume_percentage row) = true)
             table.
Proof.
  eexists.
  assert (fst (main_tables nan_world) = Ok _) as Hrun by run.
  assert ("Hydrogen" ∈ index (heap nan_world FuelInfo)) as Hin by labels.
  assert (df_loc (heap nan_world TruckFuelInfo) "Hydrogen" "MPGDE" = Ok nan)
    as Hmp by run.
  assert (PrimFloat.is_nan nan = true) as Hnan by reflexivity.
  split; [exact Hrun|]. split; [exact Hin|]. split; [exact Hmp|].
  split; [exact Hnan|].
  exact (nan_rating_gives_nan_columns TruckInfo TruckFuelInfo FuelInfo
           nan_world _ "Hydrogen" nan Hrun Hin Hmp Hnan).
Defined.

(** Diesel, which the example's efficiency table lists, and hydrogen,
    which it does not. *)
Lemma get_mpgde_never_raises_witness :
  get_mpgde (num := float) "Diesel" TruckFuelInfo example_world
  = (Ok (Some 10%float), example_world) /\
  get_mpgde (num := float) "Hydrogen" TruckFuelInfo example_world
  = (Ok None, reported example_world "Hydrogen").
Proof.
  assert (NoDup (index (heap (num := float) example_world TruckFuelInfo)))
    as Hi by labels.
  assert (NoDup (columns (heap (num := float) example_world TruckFuelInfo)))
    as Hc by labels.
  split.
  - destruct (get_mpgde_never_raises "Diesel" TruckFuelInfo example_world
                Hi Hc) as (_ & _ & Hsome & _).
    destruct Hsome as (v & Hv & Hget); [split; labels|].
    rewrite Hget. assert (v = 10%float) as -> by (vm_compute in Hv; congruence).
    reflexivity.
  - destruct (get_mpgde_never_raises "Hydrogen" TruckFuelInfo example_world
                Hi Hc) as (_ & _ & _ & Hnone).
    apply Hnone. left. labels.
Defined.

(** The example, whose run returns. *)
Lemma run_returns_iff_witness :
  (exists m, fst (main_tables (num := float) example_world) = Ok m) <->
  ("Max Gross Vehicle Weight (kg)"
     ∈ index (heap (num := float) example_world TruckInfo) /\
   "Dry Van Volume (m^3)"
     ∈ index (heap (num := float) example_world TruckInfo) /\
   "Value" ∈ columns (heap (num := float) example_world TruckInfo)) /\
  ((exists fuel,
      fuel ∈ index (heap (num := float) example_world FuelInfo) /\
      is_rated (heap (num := float) example_world TruckFuelInfo) fuel
      = true) ->
   "Diesel" ∈ index (heap (num := float) example_world FuelInfo) /\
   "Energy Density (MJ / kg)"
     ∈ columns (heap (num := float) example_world FuelInfo) /\
   "Mass Density (kg / m^3)"
     ∈ columns (heap (num := float) example_world FuelInfo)).
Proof.
  apply (run_returns_iff TruckInfo TruckFuelInfo FuelInfo example_world);
    labels.
Defined.

(** The truck table without the van row. *)
Lemma main_aborts_before_plotting_witness :
  exists e w',
    main (num := float) world_without_van_row = (Raise e, w', []) /\
    heap w' = heap world_without_van_row.
Proof.
  apply (main_aborts_before_plotting world_without_van_row); try labels.
  right; left. labels.
Defined.

(** The example: diesel is drawn, hydrogen is not. *)
Lemma charts_show_the_rated_fuels_witness :
  exists w' calls,
    NoDup (index (heap (num := float) example_world FuelInfo)) /\
    main (num := float) example_world = (Ok tt, w', calls) /\
    labels_on ax1 calls = ["Diesel"] /\
    labels_on ax2 calls = labels_on ax1 calls.
Proof.
  eexists _, _.
  assert (NoDup (index (heap (num := float) example_world FuelInfo)))
    as Hnd by (apply (bool_decide_unpack _); vm_compute; exact I).
  assert (main (num := float) example_world = (Ok tt, _, _)) as Hmain by run.
  destruct (charts_show_the_rated_fuels _ _ _ Hnd Hmain) as [H1 H2].
  split; [exact Hnd|]. split; [exact Hmain|]. split; [|exact H2].
  rewrite H1. run.
Defined.

(** The diesel line of the top chart. *)
Lemma lines_are_the_table_columns_witness :
  exists w' calls m x y,
    main (num := float) example_world = (Ok tt, w', calls) /\
    fst (main_tables (num := float) example_world) = Ok m /\
    calls !! 1%nat = Some (plot ax1 x y "Diesel") /\
    exists table,
      m !! "Diesel" = Some table /\
      x = [100; 200; 300; 400; 500; 600; 700; 800; 900; 1000] /\
      y = map fuel_volume_percentage table.
Proof.
  eexists _, _, _, _, _.
  split; [run|]. split; [run|]. split; [run|].
  eapply (lines_are_the_table_columns example_world _ _ _ ax1).
  - run.
  - run.
  - eapply list_elem_of_lookup_2 with (i := 1%nat). run.
Defined.

Ltac same_cells :=
  intros; unfold df_loc;
  cbn [heap example_world example_world_with_methanol world_of frame_of
       index columns values fuel_columns get_loc truck_info];
  simpl;
  repeat match goal with
         | |- context [String.eqb ?a ?b] =>
             destruct (String.eqb_spec a b); subst; cbn [option_map]
         end;
  first [reflexivity | discriminate | congruence].

(** Diesel, before and after methanol is added to the two tables. *)
Lemma table_depends_on_its_own_rows_witness :
  exists m1 m2 table,
    fst (main_tables (num := float) example_world) = Ok m1 /\
    fst (main_tables (num := float) example_world_with_methanol) = Ok m2 /\
    m1 !! "Diesel" = Some table /\
    m2 !! "Diesel" = Some table /\
    is_Some (m2 !! "Methanol").
Proof.
  eexists _, _, _.
  split; [run|]. split; [run|]. split; [run|]. split.
  - eapply (table_depends_on_its_own_rows TruckInfo TruckFuelInfo FuelInfo
              example_world example_world_with_methanol _ _ "Diesel").
    1-4: same_cells.
    + labels.
    + run.
    + run.
    + run.
  - eexists. run.
Defined.
